(** * vba-blocks: lockfile codec, lockfile validity, registry source

    A shallow embedding of [lockfile.ts] (readLockfile, isLockfileValid,
    toToml, fromToml and their helpers) and of the registry source
    (update, resolve, fetch, getPath), followed by the properties the
    specification states about them.

    Conventions.
    - A JavaScript string is a [string]; one character stands for one
      UTF-16 code unit, so [String.length] is [.length].
    - A thrown exception is the [Throw] branch of [Result]; [ok(c, msg)]
      of the assert module throws [AssertionError msg] when [c] is falsy.
    - A plain object or a [Map] used as a dictionary is a [gmap string _]
      holding its own properties; package and member names are taken
      not to be names of properties every object inherits
      ([constructor], [toString], ...).
    - Asynchronous functions are run to completion one after the other:
      [await p] is monadic bind, a rejected promise is a [Throw]. *)

From Stdlib Require Import String Ascii List Bool Arith Lia.
From stdpp Require Import base option list gmap strings pretty.

Local Open Scope string_scope.

(* ===================================================================== *)
(** * Part I: the embedding                                               *)
(* ===================================================================== *)

(** ** Exceptions and results *)

Inductive Error : Type :=
| AssertionError (message : string)   (* assert.ok failed *)
| JsError (message : string)          (* new Error(message) *)
| SyntaxError (message : string)      (* thrown by a parser *)
| TypeError (message : string)        (* a value of the wrong type *)
| SystemError (code : string).        (* rejected by a collaborator: fs, git, network *)

Inductive Result (A : Type) : Type :=
| Ok (value : A)
| Throw (error : Error).
Arguments Ok {A} value.
Arguments Throw {A} error.

Definition bindR {A B} (r : Result A) (k : A -> Result B) : Result B :=
  match r with
  | Ok a => k a
  | Throw e => Throw e
  end.

Notation "'let*' x ':=' c 'in' k" := (bindR c (fun x => k))
  (at level 10, x pattern, c at level 100, k at level 200).

(** [xs.map(f)] where the callback may throw: elements are visited from
    left to right and the first exception ends the traversal. *)
Fixpoint mapR {A B} (f : A -> Result B) (xs : list A) : Result (list B) :=
  match xs with
  | [] => Ok []
  | x :: rest =>
      let* y := f x in
      let* ys := mapR f rest in
      Ok (y :: ys)
  end.

Definition is_ok {A} (r : Result A) : bool :=
  match r with Ok _ => true | Throw _ => false end.

(** ** Data model *)

(** manifest/dependency: a requirement on a package.  A registry
    dependency carries no source descriptor. *)
Record Dependency : Type := mkDependency {
  dep_name : string;
  dep_version : string;
  dep_source : option string;
  dep_features : list string;
  dep_optional : bool;
  dep_default_features : bool
}.

(** manifest: the part of a manifest the lockfile keeps. *)
Record Snapshot : Type := mkSnapshot {
  snap_name : string;
  snap_version : string;
  snap_dependencies : list Dependency
}.

(** workspace: [{ root, members }]; the lockfile's [workspace] field has
    the same shape. *)
Record Workspace : Type := mkWorkspace {
  ws_root : Snapshot;
  ws_members : list Snapshot
}.

(** sources/registration.  [fromToml] first builds registrations whose
    [dependencies] are still id strings and then overwrites that field
    with hydrated dependencies, hence the parameter [D].  The index
    reader sets no [id], the lockfile codec sets no [features]. *)
Record RegistrationOf (D : Type) : Type := mkRegistration {
  reg_id : option string;
  reg_name : string;
  reg_version : string;
  reg_source : string;
  reg_dependencies : list D;
  reg_features : option (list (string * list string))
}.
Arguments mkRegistration {D}.
Arguments reg_id {D}.
Arguments reg_name {D}.
Arguments reg_version {D}.
Arguments reg_source {D}.
Arguments reg_dependencies {D}.
Arguments reg_features {D}.

Abbreviation Registration := (RegistrationOf Dependency).
Abbreviation DependencyGraph := (list (RegistrationOf Dependency)).

Record Lockfile : Type := mkLockfile {
  workspace : Workspace;
  packages : DependencyGraph
}.

(** ** Dictionaries keyed by name *)

(** [xs.forEach(x => (byName[x.name] = x))] on a fresh object: a later
    element replaces an earlier one of the same name. *)
Definition indexByName {A} (name : A -> string) (xs : list A) : gmap string A :=
  foldl (fun m x => <[name x := x]> m) ∅ xs.

(** ** lockfile.ts: validity *)

Section Validity.
(** manifest/dependency [satisfies(value, comparison)]: does the
    constraint of [value] accept what [comparison] pins? *)
Variable satisfies : Dependency -> Dependency -> bool.

(** The [for ... of locked.dependencies] loop of compareDependencies. *)
Fixpoint compareLocked (byName : gmap string Dependency)
         (locked : list Dependency) : bool :=
  match locked with
  | [] => true
  | dependency :: rest =>
      match byName !! dep_name dependency with
      | None => false
      | Some currentValue =>
          if negb (satisfies currentValue dependency) then false
          else compareLocked byName rest
      end
  end.

Definition compareDependencies (current locked : Snapshot) : bool :=
  if negb (Nat.eqb (length (snap_dependencies current))
                   (length (snap_dependencies locked)))
  then false
  else
    let byName := indexByName dep_name (snap_dependencies current) in
    compareLocked byName (snap_dependencies locked).

(** The [for ... of lockfile.workspace.members] loop of isLockfileValid. *)
Fixpoint compareMembers (byName : gmap string Snapshot)
         (members : list Snapshot) : bool :=
  match members with
  | [] => true
  | member :: rest =>
      match byName !! snap_name member with
      | None => false
      | Some currentMember =>
          if negb (compareDependencies currentMember member) then false
          else compareMembers byName rest
      end
  end.

Definition isLockfileValid (lockfile : Lockfile) (workspace0 : Workspace) : bool :=
  if negb (compareDependencies (ws_root workspace0) (ws_root (workspace lockfile)))
  then false
  else if negb (Nat.eqb (length (ws_members (workspace lockfile)))
                        (length (ws_members workspace0)))
  then false
  else
    let byName := indexByName snap_name (ws_members workspace0) in
    compareMembers byName (ws_members (workspace lockfile)).
End Validity.

(** ** lockfile.ts: the TOML codec *)

(** What [parseToml] hands to [fromToml] and what [toToml] hands to
    [convertToToml]: the tables of a lockfile.  A field is [None] when
    the key is missing ([undefined]); [dependencies] is [None] when the
    value is missing or [Array.isArray] rejects it.  Fields of other
    TOML types than the lockfile format uses are outside the model. *)
Record TomlManifest : Type := mkTomlManifest {
  tm_name : option string;
  tm_version : option string;
  tm_dependencies : option (list string)
}.

Record TomlPackage : Type := mkTomlPackage {
  tp_name : option string;
  tp_version : option string;
  tp_source : option string;
  tp_dependencies : option (list string)
}.

Record TomlDocument : Type := mkTomlDocument {
  doc_root : option TomlManifest;
  doc_members : option (list TomlManifest);
  doc_packages : option (list TomlPackage)
}.

(** Truthiness of a string-valued field: [undefined] and the empty
    string are falsy. *)
Definition truthy (field : option string) : option string :=
  match field with
  | Some (String c rest) => Some (String c rest)
  | _ => None
  end.

(** [value || []] *)
Definition orEmpty {A} (value : option (list A)) : list A :=
  match value with
  | Some xs => xs
  | None => []
  end.

Definition space : ascii := Ascii.ascii_of_nat 32.
Definition hash : ascii := Ascii.ascii_of_nat 35.
Definition dquote : string := String (Ascii.ascii_of_nat 34) EmptyString.

(** The first element of [s.split(sep, n)] for [n >= 1]: the characters
    before the first [sep], the whole string when it has none. *)
Fixpoint beforeChar (sep : ascii) (s : string) : string :=
  match s with
  | EmptyString => EmptyString
  | String c rest =>
      if Ascii.eqb c sep then EmptyString else String c (beforeChar sep rest)
  end.

(** What follows the first [sep], if there is one. *)
Fixpoint afterChar (sep : ascii) (s : string) : option string :=
  match s with
  | EmptyString => None
  | String c rest => if Ascii.eqb c sep then Some rest else afterChar sep rest
  end.

(** sources/registration, as its tests pin it down:
    [getRegistrationId('a', '1.0.0')] is ['a@1.0.0']. *)
Definition getRegistrationId (name version : string) : string :=
  name +:+ "@" +:+ version.

(** Modelled from the spec: sources/registration [toDependency] is not
    among the sources.  "a name-keyed lightweight Dependency stand-in
    capturing that package's own name/version/source". *)
Definition toDependency {D} (registration : RegistrationOf D) : Dependency :=
  {| dep_name := reg_name registration;
     dep_version := reg_version registration;
     dep_source := Some (reg_source registration);
     dep_features := [];
     dep_optional := false;
     dep_default_features := true |}.

(** Get dependency by id (using name from id). *)
Definition getDependency (id : string) (byName : gmap string Dependency)
  : Result Dependency :=
  let name := beforeChar space id in   (* const [name] = id.split(' ', 1) *)
  match byName !! name with
  | Some dependency => Ok dependency
  | None =>
      Throw (AssertionError
               ("Package not found in lockfile, " +:+ dquote +:+ id +:+ dquote))
  end.

(** Convert raw toml value to manifest. *)
Definition toManifest (value : TomlManifest) (byName : gmap string Dependency)
  : Result Snapshot :=
  match truthy (tm_name value), truthy (tm_version value), tm_dependencies value with
  | Some name, Some version, Some ids =>
      let* dependencies := mapR (fun id => getDependency id byName) ids in
      Ok {| snap_name := name;
            snap_version := version;
            snap_dependencies := dependencies |}
  | _, _, _ => Throw (AssertionError "Invalid manifest in lockfile")
  end.

(** First pass of fromToml: the callback of [(parsed.packages || []).map],
    threading the [byName] map it fills. *)
Fixpoint loadPackages (values : list TomlPackage) (byName : gmap string Dependency)
  : Result (list (RegistrationOf string) * gmap string Dependency) :=
  match values with
  | [] => Ok ([], byName)
  | value :: rest =>
      match truthy (tp_name value), truthy (tp_version value),
            truthy (tp_source value), tp_dependencies value with
      | Some name, Some version, Some source, Some dependencies =>
          let registration :=
            {| reg_id := Some (getRegistrationId name version);
               reg_name := name;
               reg_version := version;
               reg_source := source;
               reg_dependencies := dependencies;
               reg_features := None |} in
          let* (registrations, byName') :=
            loadPackages rest (<[name := toDependency registration]> byName) in
          Ok (registration :: registrations, byName')
      | _, _, _, _ => Throw (AssertionError "Invalid package in lockfile")
      end
  end.

(** Second pass, one registration: its id strings become dependencies. *)
Definition hydrate (byName : gmap string Dependency)
           (registration : RegistrationOf string) : Result Registration :=
  let* dependencies :=
    mapR (fun id => getDependency id byName) (reg_dependencies registration) in
  Ok {| reg_id := reg_id registration;
        reg_name := reg_name registration;
        reg_version := reg_version registration;
        reg_source := reg_source registration;
        reg_dependencies := dependencies;
        reg_features := reg_features registration |}.

(** fromToml after [parseToml]. *)
Definition fromParsed (parsed : TomlDocument) : Result Lockfile :=
  match doc_root parsed with
  | None => Throw (AssertionError "vba-block.lock is missing [root] field")
  | Some parsedRoot =>
      let* (skeletons, byName) := loadPackages (orEmpty (doc_packages parsed)) ∅ in
      let* packages0 := mapR (hydrate byName) skeletons in
      let* root := toManifest parsedRoot byName in
      let* members :=
        mapR (fun member => toManifest member byName) (orEmpty (doc_members parsed)) in
      Ok {| workspace := {| ws_root := root; ws_members := members |};
            packages := packages0 |}
  end.

Section Codec.
(** The [toml] package's [parse] and utils [convertToToml]. *)
Variable parseToml : string -> Result TomlDocument.
Variable convertToToml : TomlDocument -> string.
(** Does the version of a registration satisfy the dependency's
    constraint?  Used by the resolver's lookup. *)
Variable accepts : Dependency -> string -> bool.

(** Modelled from the spec: resolve [getRegistration] is not among the
    sources.  "matches by name first, then requires the candidate's
    version to satisfy the dependency's constraint; zero or multiple
    acceptable matches is a fatal condition". *)
Definition getRegistration (graph : DependencyGraph) (dependency : Dependency)
  : option Registration :=
  match List.filter
          (fun registration =>
             String.eqb (reg_name registration) (dep_name dependency)
             && accepts dependency (reg_version registration))
          graph with
  | [registration] => Some registration
  | _ => None
  end.

(** Get dependency id: "{name} {version} {source}". *)
Definition toDependencyId (dependency : Dependency) (packages0 : DependencyGraph)
  : Result string :=
  match getRegistration packages0 dependency with
  | None => Throw (AssertionError "No package found for dependency")
  | Some registration =>
      Ok (dep_name dependency +:+ " " +:+ reg_version registration
          +:+ " " +:+ reg_source registration)
  end.

(** Prepare manifest for toml. *)
Definition prepareManifest (manifest : Snapshot) (packages0 : DependencyGraph)
  : Result TomlManifest :=
  let* dependencies :=
    mapR (fun dependency => toDependencyId dependency packages0)
         (snap_dependencies manifest) in
  Ok {| tm_name := Some (snap_name manifest);
        tm_version := Some (snap_version manifest);
        tm_dependencies := Some dependencies |}.

Definition preparePackage (packages0 : DependencyGraph) (registration : Registration)
  : Result TomlPackage :=
  let* dependencies :=
    mapR (fun dependency => toDependencyId dependency packages0)
         (reg_dependencies registration) in
  Ok {| tp_name := Some (reg_name registration);
        tp_version := Some (reg_version registration);
        tp_source := Some (reg_source registration);
        tp_dependencies := Some dependencies |}.

(** The object [{ root, members, packages }] toToml passes on. *)
Definition prepareDocument (lockfile : Lockfile) : Result TomlDocument :=
  let* root := prepareManifest (ws_root (workspace lockfile)) (packages lockfile) in
  let* members :=
    mapR (fun member => prepareManifest member (packages lockfile))
         (ws_members (workspace lockfile)) in
  let* packages0 := mapR (preparePackage (packages lockfile)) (packages lockfile) in
  Ok {| doc_root := Some root;
        doc_members := Some members;
        doc_packages := Some packages0 |}.

Definition toToml (lockfile : Lockfile) : Result string :=
  let* document := prepareDocument lockfile in
  Ok (convertToToml document).

Definition fromToml (toml : string) : Result Lockfile :=
  let* parsed := parseToml toml in
  fromParsed parsed.
End Codec.

(** ** sources/registry: the collaborators *)

(** An argument of [path.join]: getPath passes the numbers 1, 2 and 3
    along with strings. *)
Inductive PathPart : Type :=
| PNum (n : nat)
| PStr (s : string).

(** One line of an index file:
    [{name, vers, deps, cksum, features, yanked}]. *)
Record IndexDependency : Type := mkIndexDependency {
  idx_name : string;
  idx_req : string;
  idx_features : list string;
  idx_optional : bool;
  idx_default_features : bool
}.

Record IndexRecord : Type := mkIndexRecord {
  rec_name : string;
  rec_vers : string;
  rec_deps : list IndexDependency;
  rec_cksum : string;
  rec_features : option (list (string * list string));
  rec_yanked : bool
}.

(** config: the registry locations and the three path resolvers. *)
Record Config : Type := mkConfig {
  registry_local : string;
  registry_remote : string;
  resolveRemotePackage : Registration -> string;
  resolveLocalPackage : Registration -> string;
  resolveSource : Registration -> string
}.

(** The file system and the record of what was asked of the outside
    world, oldest request first. *)
Inductive Node : Type :=
| File (content : string)
| Directory.

Inductive Action : Type :=
| EnsureDir (dir : string)
| Clone (remote name dir : string)
| Pull (local : string)
| TmpFile (path : string)
| Download (url dest : string)
| Move (src dest : string)
| Extract (file cwd : string)
| ReadFile (file : string).

Record World : Type := mkWorld {
  fs : gmap string Node;
  journal : list Action
}.

(** An asynchronous computation: it changes the world and either
    fulfils with a value or rejects. *)
Definition Async (A : Type) : Type := World -> World * Result A.

Definition pure {A} (a : A) : Async A := fun w => (w, Ok a).
Definition throw {A} (e : Error) : Async A := fun w => (w, Throw e).
Definition lift {A} (r : Result A) : Async A := fun w => (w, r).

(** [await] *)
Definition andThen {A B} (m : Async A) (k : A -> Async B) : Async B :=
  fun w =>
    match m w with
    | (w', Ok a) => k a w'
    | (w', Throw e) => (w', Throw e)
    end.

(** [try { body } catch (err) { handler }] *)
Definition tryCatch {A} (body : Async A) (handler : Error -> Async A) : Async A :=
  fun w =>
    match body w with
    | (w', Ok a) => (w', Ok a)
    | (w', Throw e) => handler e w'
    end.

Notation "'await' x ':=' c 'in' k" := (andThen c (fun x => k))
  (at level 10, x pattern, c at level 100, k at level 200).
Notation "c ';;' k" := (andThen c (fun _ => k))
  (at level 100, k at level 200, right associativity).

Definition record (a : Action) (w : World) : World :=
  {| fs := fs w; journal := journal w ++ [a] |}.

(** How a line reader created on a file reports: each line, then
    ['close'], or ['error']. *)
Inductive ReaderEvent : Type :=
| Line (line : string)
| Close
| Failure (e : Error).

(** What becomes of the promise [resolve] returns.  An exception that
    escapes an event listener reaches no [reject]: it is uncaught and
    ends the program with the promise unsettled. *)
Inductive Outcome (A : Type) : Type :=
| Resolved (value : A)
| Rejected (e : Error)
| Uncaught (e : Error)
| Pending.
Arguments Resolved {A} value.
Arguments Rejected {A} e.
Arguments Uncaught {A} e.
Arguments Pending {A}.

Definition registry_url : string := "https://github.com/vba-blocks/registry".

Section Registry.
(** Decided by the outside world: whether a request fails, what a url
    serves, what digest a content has, which name [tmp.file] picks,
    what an archive unpacks to, where [git clone] puts the tree. *)
Variable fault : World -> Action -> option Error.
Variable served : string -> string.
Variable getDigest : string -> string.
Variable tmpName : World -> string.
Variable unpack : string -> string -> gmap string Node -> gmap string Node.
Variable cloneTarget : string -> string -> string.
(** path: [join], [dirname], [basename]. *)
Variable join : list PathPart -> Result string.
Variable dirname : string -> string.
Variable basename : string -> string.
(** readline over [createReadStream(path)]. *)
Variable readLines : string -> list ReaderEvent.
Variable JSON_parse : string -> Result IndexRecord.
Variable parseToml : string -> Result TomlDocument.

(** A request to the outside world: journalled, then it fails or
    takes effect on the file system. *)
Definition perform (a : Action) (effect : gmap string Node -> gmap string Node)
  : Async unit :=
  fun w =>
    match fault w a with
    | Some e => (record a w, Throw e)
    | None => ({| fs := effect (fs w); journal := journal w ++ [a] |}, Ok tt)
    end.

(** fs-extra [exists] / utils/fs [pathExists] *)
Definition pathExists (path : string) : Async bool :=
  fun w => (w, Ok (bool_decide (is_Some (fs w !! path)))).

Definition ensureDir (dir : string) : Async unit :=
  perform (EnsureDir dir)
          (fun files => match files !! dir with
                        | None => <[dir := Directory]> files
                        | Some _ => files
                        end).



Definition tmpFile : Async string :=
  fun w =>
    let path := tmpName w in
    (perform (TmpFile path) (fun files => <[path := File EmptyString]> files) ;;
     pure path) w.

Definition download (url dest : string) : Async unit :=
  perform (Download url dest) (fun files => <[dest := File (served url)]> files).

Definition getChecksum (file : string) : Async string :=
  fun w =>
    match fs w !! file with
    | Some (File content) => (w, Ok (getDigest content))
    | _ => (w, Throw (SystemError "ENOENT"))
    end.

(** fs-extra [move] without [overwrite]. *)
Definition move (src dest : string) : Async unit :=
  fun w =>
    match fs w !! src, fs w !! dest with
    | Some node, None =>
        perform (Move src dest) (fun files => <[dest := node]> (delete src files)) w
    | None, _ => (record (Move src dest) w, Throw (SystemError "ENOENT"))
    | _, Some _ => (record (Move src dest) w, Throw (SystemError "EEXIST"))
    end.

Definition extract (file cwd : string) : Async unit :=
  fun w =>
    match fs w !! file with
    | Some (File content) => perform (Extract file cwd) (unpack content cwd) w
    | _ => (record (Extract file cwd) w, Throw (SystemError "ENOENT"))
    end.

Definition readFile (file : string) : Async string :=
  fun w =>
    match fault w (ReadFile file), fs w !! file with
    | Some e, _ => (record (ReadFile file) w, Throw e)
    | None, Some (File content) => (record (ReadFile file) w, Ok content)
    | None, _ => (record (ReadFile file) w, Throw (SystemError "ENOENT"))
    end.

(** ** sources/registry *)


Definition getPath (config : Config) (name : string) : Result string :=
  let parts :=
    if Nat.eqb (String.length name) 1 then [PNum 1; PStr name]
    else if Nat.eqb (String.length name) 2 then [PNum 2; PStr name]
    else if Nat.eqb (String.length name) 3 then [PNum 3; PStr (substring 0 1 name)]
    else [PStr (substring 0 2 name); PStr (substring 2 2 name)] in
  join (PStr (registry_local config) :: parts ++ [PStr name])%list.

(** The callback of [deps.map] in resolve. *)
Definition toRegistryDependency (dep : IndexDependency) : Dependency :=
  {| dep_name := idx_name dep;
     dep_version := idx_req dep;
     dep_source := None;
     dep_features := idx_features dep;
     dep_optional := idx_optional dep;
     dep_default_features := idx_default_features dep |}.

(** The registration resolve pushes for a record. *)
Definition toRegistration (parsed : IndexRecord) : Registration :=
  {| reg_id := None;
     reg_name := rec_name parsed;
     reg_version := rec_vers parsed;
     reg_source := "registry+" +:+ registry_url +:+ "#" +:+ rec_cksum parsed;
     reg_dependencies := List.map toRegistryDependency (rec_deps parsed);
     reg_features := rec_features parsed |}.

(** The ['line'] listener of resolve; [registrations] is the array it
    pushes to. *)
Definition onLine (line : string) (registrations : list Registration)
  : Result (list Registration) :=
  let* parsed := JSON_parse line in
  if rec_yanked parsed then Ok registrations
  else Ok (registrations ++ [toRegistration parsed])%list.

(** The reader's events reaching the listeners of resolve in order. *)
Fixpoint deliver (events : list ReaderEvent) (registrations : list Registration)
  : Outcome (list Registration) :=
  match events with
  | [] => Pending
  | Line line :: rest =>
      match onLine line registrations with
      | Ok registrations' => deliver rest registrations'
      | Throw e => Uncaught e
      end
  | Close :: _ => Resolved registrations
  | Failure e :: _ => Rejected e
  end.

Definition resolve (config : Config) (dependency : Dependency)
  : Outcome (list Registration) :=
  match getPath config (dep_name dependency) with
  | Throw e => Rejected e          (* thrown inside the promise executor *)
  | Ok path => deliver (readLines path) []
  end.

(** [registration.source.split('#', 2)[1]] *)
Definition embeddedChecksum (source : string) : option string :=
  option_map (beforeChar hash) (afterChar hash source).

Definition fetch (config : Config) (registration : Registration) : Async string :=
  let url := resolveRemotePackage config registration in
  let file := resolveLocalPackage config registration in
  let checksum := embeddedChecksum (reg_source registration) in
  await present := pathExists file in
  (if negb present then
     await unverifiedFile := tmpFile in
     download url unverifiedFile ;;
     await comparison := getChecksum unverifiedFile in
     if negb (bool_decide (Some comparison = checksum)) then
       throw (JsError ("Invalid checksum for " +:+ reg_name registration
                       +:+ "@" +:+ reg_version registration))
     else move unverifiedFile file
   else pure tt) ;;
  let src := resolveSource config registration in
  ensureDir src ;;
  extract file src ;;
  pure src.

(** ** lockfile.ts: reading the lockfile *)

Definition readLockfile (dir : string) : Async (option Lockfile) :=
  tryCatch
    (await file := lift (join [PStr dir; PStr "vba-block.lock"]) in
     await present := pathExists file in
     if negb present then pure None
     else
       await toml := readFile file in
       await lockfile := lift (fromToml parseToml toml) in
       pure (Some lockfile))
    (fun err => pure None).
End Registry.

(** ** The specification's reading of the validity check *)

(** The current entry a name designates: the last one carrying it. *)
Fixpoint lastNamed {A} (name : A -> string) (xs : list A) (n : string) : option A :=
  match xs with
  | [] => None
  | x :: rest =>
      match lastNamed name rest n with
      | Some y => Some y
      | None => if String.eqb (name x) n then Some x else None
      end
  end.

Section ValiditySpec.
Variable satisfies : Dependency -> Dependency -> bool.

(** Dependency-set satisfaction of [locked] against [current]: equal
    counts, every locked name found among the current dependencies,
    and the current dependency of that name accepting the locked one. *)
Definition dependenciesSatisfied (current locked : Snapshot) : Prop :=
  length (snap_dependencies current) = length (snap_dependencies locked)
  /\ (forall d, d ∈ snap_dependencies locked ->
                dep_name d ∈ List.map dep_name (snap_dependencies current))
  /\ (forall d c, d ∈ snap_dependencies locked ->
                  lastNamed dep_name (snap_dependencies current) (dep_name d) = Some c ->
                  satisfies c d = true).

Definition lockfileValidSpec (lockfile : Lockfile) (current : Workspace) : Prop :=
  dependenciesSatisfied (ws_root current) (ws_root (workspace lockfile))
  /\ length (ws_members (workspace lockfile)) = length (ws_members current)
  /\ (forall m, m ∈ ws_members (workspace lockfile) ->
                snap_name m ∈ List.map snap_name (ws_members current))
  /\ (forall m cur, m ∈ ws_members (workspace lockfile) ->
                    lastNamed snap_name (ws_members current) (snap_name m) = Some cur ->
                    dependenciesSatisfied cur m).
End ValiditySpec.



(** ** Reading aids for the statements about hydration *)

Definition packageNotFound (id : string) : Error :=
  AssertionError ("Package not found in lockfile, " +:+ dquote +:+ id +:+ dquote).

(** Each dependency is what the map holds under the name that opens
    the id written at the same position. *)
Definition hydratedBy (byName : gmap string Dependency)
           (ids : list string) (dependencies : list Dependency) : Prop :=
  Forall2 (fun id dependency => byName !! beforeChar space id = Some dependency)
          ids dependencies.

(** Every dependency id a parsed lockfile mentions: in its packages, its
    root and its members. *)
Definition documentIds (parsed : TomlDocument) : list string :=
  (concat (List.map (fun value => orEmpty (tp_dependencies value))
                    (orEmpty (doc_packages parsed)))
   ++ match doc_root parsed with
      | Some value => orEmpty (tm_dependencies value)
      | None => []
      end
   ++ concat (List.map (fun value => orEmpty (tm_dependencies value))
                       (orEmpty (doc_members parsed))))%list.

(** ** Reading aids for the round trip *)

Fixpoint hasChar (c : ascii) (s : string) : bool :=
  match s with
  | EmptyString => false
  | String c' rest => Ascii.eqb c' c || hasChar c rest
  end.

Definition nonEmpty (s : string) : bool :=
  match s with
  | EmptyString => false
  | String _ _ => true
  end.

Definition spaceFree (s : string) : bool := negb (hasChar space s).

Section RoundTripSpec.
Variable parseToml : string -> Result TomlDocument.
Variable convertToToml : TomlDocument -> string.
Variable accepts : Dependency -> string -> bool.

Definition resolvable (graph : DependencyGraph) (dependency : Dependency) : bool :=
  match getRegistration accepts graph dependency with
  | Some _ => true
  | None => false
  end.

(** A complete graph: every dependency of the root, of every member
    and of every registration has its registration in the graph. *)
Definition completeGraph (lockfile : Lockfile) : bool :=
  let graph := packages lockfile in
  forallb (resolvable graph) (snap_dependencies (ws_root (workspace lockfile)))
  && forallb (fun member => forallb (resolvable graph) (snap_dependencies member))
             (ws_members (workspace lockfile))
  && forallb (fun registration =>
                forallb (resolvable graph) (reg_dependencies registration))
             graph.

(** The text written for [document] parses back to the same root
    table, the same member tables and the same package tables (an
    empty array of tables may come back as a missing key). *)
Definition codecRoundTrips (document : TomlDocument) : Prop :=
  exists parsed,
    parseToml (convertToToml document) = Ok parsed
    /\ doc_root parsed = doc_root document
    /\ orEmpty (doc_members parsed) = orEmpty (doc_members document)
    /\ orEmpty (doc_packages parsed) = orEmpty (doc_packages document).
End RoundTripSpec.

(** Names and versions are not empty, package sources are not empty and
    package names hold no space. *)
Definition wellFormedNames (lockfile : Lockfile) : bool :=
  nonEmpty (snap_name (ws_root (workspace lockfile)))
  && nonEmpty (snap_version (ws_root (workspace lockfile)))
  && forallb (fun member => nonEmpty (snap_name member) && nonEmpty (snap_version member))
             (ws_members (workspace lockfile))
  && forallb (fun registration =>
                nonEmpty (reg_name registration) && spaceFree (reg_name registration)
                && nonEmpty (reg_version registration)
                && nonEmpty (reg_source registration))
             (packages lockfile).

Definition sameSnapshotIdentity (a b : Snapshot) : Prop :=
  snap_name a = snap_name b
  /\ snap_version a = snap_version b
  /\ List.map dep_name (snap_dependencies a) = List.map dep_name (snap_dependencies b).

Definition sameRegistrationIdentity (a b : Registration) : Prop :=
  reg_name a = reg_name b
  /\ reg_version a = reg_version b
  /\ List.map dep_name (reg_dependencies a) = List.map dep_name (reg_dependencies b).

(** Same root, member and package names and versions, and the same
    dependency names (in the same order) for each of them. *)
Definition sameIdentity (a b : Lockfile) : Prop :=
  sameSnapshotIdentity (ws_root (workspace a)) (ws_root (workspace b))
  /\ Forall2 sameSnapshotIdentity (ws_members (workspace a)) (ws_members (workspace b))
  /\ Forall2 sameRegistrationIdentity (packages a) (packages b).

(** The id toDependencyId writes for [dependency] in [graph]. *)
Definition idFor (graph : DependencyGraph) (dependency : Dependency) (id : string) : Prop :=
  exists registration,
    registration ∈ graph
    /\ reg_name registration = dep_name dependency
    /\ id = dep_name dependency +:+ " " +:+ reg_version registration
            +:+ " " +:+ reg_source registration.

(** What preparePackage writes for a registration of [graph]. *)
Definition writtenPackage (graph : DependencyGraph) (r : Registration)
           (value : TomlPackage) : Prop :=
  exists ids,
    value = {| tp_name := Some (reg_name r); tp_version := Some (reg_version r);
               tp_source := Some (reg_source r); tp_dependencies := Some ids |}
    /\ Forall2 (idFor graph) (reg_dependencies r) ids.

(** What prepareManifest writes for a snapshot. *)
Definition writtenManifest (graph : DependencyGraph) (s : Snapshot)
           (value : TomlManifest) : Prop :=
  exists ids,
    value = {| tm_name := Some (snap_name s); tm_version := Some (snap_version s);
               tm_dependencies := Some ids |}
    /\ Forall2 (idFor graph) (snap_dependencies s) ids.

(** ** Sample values *)

(** A stand-in for [satisfies]: the constraint is an exact version. *)
Definition exactVersion (value comparison : Dependency) : bool :=
  String.eqb (dep_version value) (dep_version comparison).

Definition dependencyA : Dependency :=
  {| dep_name := "a"; dep_version := "1.0.0"; dep_source := None;
     dep_features := []; dep_optional := false; dep_default_features := true |}.

Definition registrationA : Registration :=
  {| reg_id := Some "a@1.0.0"; reg_name := "a"; reg_version := "1.0.0";
     reg_source := "registry+x#c1"; reg_dependencies := []; reg_features := None |}.

Definition sampleRoot : Snapshot :=
  {| snap_name := "app"; snap_version := "1.0.0"; snap_dependencies := [dependencyA] |}.


Definition sampleMember : Snapshot :=
  {| snap_name := "addin"; snap_version := "0.1.0"; snap_dependencies := [] |}.


Definition sampleLockfile : Lockfile :=
  {| workspace := {| ws_root := sampleRoot; ws_members := [sampleMember] |};
     packages := [registrationA] |}.




(** Scenario 2 of the specification, as parsed. *)
Definition sampleDocument : TomlDocument :=
  {| doc_root := Some {| tm_name := Some "app"; tm_version := Some "1.0.0";
                         tm_dependencies := Some ["a 1.0.0 registry+x#c1"] |};
     doc_members := None;
     doc_packages := Some [ {| tp_name := Some "a"; tp_version := Some "1.0.0";
                               tp_source := Some "registry+x#c1";
                               tp_dependencies := Some [] |} ] |}.

Definition sampleSkeleton : RegistrationOf string :=
  {| reg_id := Some "a@1.0.0"; reg_name := "a"; reg_version := "1.0.0";
     reg_source := "registry+x#c1"; reg_dependencies := []; reg_features := None |}.


(** A stand-in for the resolver's version test: exact versions. *)
Definition acceptsExact (dependency : Dependency) (version : string) : bool :=
  String.eqb (dep_version dependency) version.

(** The sample lockfile as toToml hands it to convertToToml, a text for
    it, and a codec that knows this one text. *)
Definition sampleWritten : TomlDocument :=
  {| doc_root := Some {| tm_name := Some "app"; tm_version := Some "1.0.0";
                         tm_dependencies := Some ["a 1.0.0 registry+x#c1"] |};
     doc_members := Some [ {| tm_name := Some "addin"; tm_version := Some "0.1.0";
                              tm_dependencies := Some [] |} ];
     doc_packages := Some [ {| tp_name := Some "a"; tp_version := Some "1.0.0";
                               tp_source := Some "registry+x#c1";
                               tp_dependencies := Some [] |} ] |}.

Definition sampleToml : string :=
"[root]
name = 'app'
version = '1.0.0'
dependencies = ['a 1.0.0 registry+x#c1',]

[[members]]
name = 'addin'
version = '0.1.0'
dependencies = []

[[packages]]
name = 'a'
version = '1.0.0'
source = 'registry+x#c1'
dependencies = []
".

Definition sampleConvert (document : TomlDocument) : string := sampleToml.

Definition sampleParse (toml : string) : Result TomlDocument :=
  if String.eqb toml sampleToml then Ok sampleWritten
  else Throw (SyntaxError "unexpected text").

(** A package whose name holds a space, and a root without a name. *)
Definition dependencySpaced : Dependency :=
  {| dep_name := "my lib"; dep_version := "1.0.0"; dep_source := None;
     dep_features := []; dep_optional := false; dep_default_features := true |}.

Definition registrationSpaced : Registration :=
  {| reg_id := Some "my lib@1.0.0"; reg_name := "my lib"; reg_version := "1.0.0";
     reg_source := "registry+x#c1"; reg_dependencies := []; reg_features := None |}.

Definition spacedLockfile : Lockfile :=
  {| workspace :=
       {| ws_root := {| snap_name := "app"; snap_version := "1.0.0";
                        snap_dependencies := [dependencySpaced] |};
          ws_members := [] |};
     packages := [registrationSpaced] |}.

Definition unnamedLockfile : Lockfile :=
  {| workspace :=
       {| ws_root := {| snap_name := EmptyString; snap_version := "1.0.0";
                        snap_dependencies := [] |};
          ws_members := [] |};
     packages := [] |}.

(** ** Two readings of [path.join] *)

Definition partText (part : PathPart) : string :=
  match part with
  | PNum n => pretty n
  | PStr s => s
  end.

Fixpoint joinSlash (segments : list string) : string :=
  match segments with
  | [] => "."
  | [segment] => segment
  | segment :: rest => segment +:+ "/" +:+ joinSlash rest
  end.

Fixpoint firstNumber (parts : list PathPart) : option nat :=
  match parts with
  | [] => None
  | PNum n :: _ => Some n
  | PStr _ :: rest => firstNumber rest
  end.

(** Node's [path.join]: "A TypeError is thrown if any of the path
    segments is not a string"; the segments are joined with the
    separator.  The normalisation of empty, [.] and [..] segments is
    left out. *)
Definition joinStrict (parts : list PathPart) : Result string :=
  match firstNumber parts with
  | Some n => Throw (TypeError ("Path must be a string. Received " +:+ pretty n))
  | None => Ok (joinSlash (List.map partText parts))
  end.

(** A join that would print a number in decimal. *)
Definition joinLenient (parts : list PathPart) : Result string :=
  Ok (joinSlash (List.map partText parts)).

(** ** A sample outside world *)

Definition sampleConfig : Config :=
  {| registry_local := "cache/registry";
     registry_remote := registry_url;
     resolveRemotePackage :=
       fun r => "https://packages/" +:+ reg_name r +:+ "-" +:+ reg_version r +:+ ".block";
     resolveLocalPackage :=
       fun r => "cache/packages/" +:+ reg_name r +:+ "-" +:+ reg_version r +:+ ".block";
     resolveSource :=
       fun r => "cache/sources/" +:+ reg_name r +:+ "-" +:+ reg_version r |}.

(** Scenario 4: the registration expects [deadbeef], the archive served
    has digest [beefdead]. *)
Definition registrationTampered : Registration :=
  {| reg_id := Some "a@1.0.0"; reg_name := "a"; reg_version := "1.0.0";
     reg_source := "registry+x#deadbeef"; reg_dependencies := []; reg_features := None |}.

Definition noFault (w : World) (a : Action) : option Error := None.
Definition servedArchive (url : string) : string := "archive bytes".
Definition digestBeefdead (content : string) : string := "beefdead".
Definition tmpUnverified (w : World) : string := "tmp/unverified".
Definition unpackNothing (content cwd : string) (files : gmap string Node)
  : gmap string Node := files.

Definition emptyWorld : World := {| fs := ∅; journal := [] |}.

(** An index file of three records, the second one yanked, behind a
    parser that knows these lines. *)
Definition recordLeftPad (vers cksum : string) (yanked : bool) : IndexRecord :=
  {| rec_name := "left-pad"; rec_vers := vers;
     rec_deps := [ {| idx_name := "pad-core"; idx_req := "^1.0.0"; idx_features := [];
                      idx_optional := false; idx_default_features := true |} ];
     rec_cksum := cksum; rec_features := None; rec_yanked := yanked |}.

Definition sampleJsonParse (line : string) : Result IndexRecord :=
  if String.eqb line "{left-pad 1.0.0}" then Ok (recordLeftPad "1.0.0" "abc123" false)
  else if String.eqb line "{left-pad 1.1.0 yanked}" then Ok (recordLeftPad "1.1.0" "def456" true)
  else if String.eqb line "{left-pad 1.2.0}" then Ok (recordLeftPad "1.2.0" "789abc" false)
  else Throw (SyntaxError "Unexpected token").

Definition sampleIndexLines : list string :=
  ["{left-pad 1.0.0}"; "{left-pad 1.1.0 yanked}"; "{left-pad 1.2.0}"].

Definition dependencyLeftPad : Dependency :=
  {| dep_name := "left-pad"; dep_version := "^1.0.0"; dep_source := None;
     dep_features := []; dep_optional := false; dep_default_features := true |}.

(** A project directory whose lockfile is not a lockfile. *)
Definition corruptWorld : World :=
  {| fs := {[ "project/vba-block.lock" := File "[[[" ]}; journal := [] |}.

(** ** lockfile.ts: writing the lockfile *)

Section WriteLockfile.
(** Whether a write fails and, if so, with which error and what it
    leaves on disk. *)
Variable writeFault : World -> string -> string -> option (Error * gmap string Node).
Variable join : list PathPart -> Result string.
Variable convertToToml : TomlDocument -> string.
Variable accepts : Dependency -> string -> bool.

(** Modelled from the spec: utils/fs [writeFile] is not among the
    sources.  "A write operation always replaces the entire file": after
    a write that fulfils, the file holds [data], whatever it held
    before.  What a write that fails leaves on disk is not specified;
    [writeFault] decides it along with the error. *)
Definition writeFile (file data : string) : Async unit :=
  fun w =>
    match writeFault w file data with
    | Some (e, remains) => ({| fs := remains; journal := journal w |}, Throw e)
    | None => ({| fs := <[file := File data]> (fs w); journal := journal w |}, Ok tt)
    end.

Definition writeLockfile (dir : string) (lockfile : Lockfile) : Async unit :=
  await file := lift (join [PStr dir; PStr "vba-block.lock"]) in
  await toml := lift (toToml convertToToml accepts lockfile) in
  writeFile file toml.
End WriteLockfile.

(** ** manifest/target.ts *)

(** A [[targets]] table as parsed: a key that is missing is [None]. *)
Record TargetValue : Type := mkTargetValue {
  tv_name : option string;
  tv_type : option string;
  tv_path : option string
}.

Record Target : Type := mkTarget {
  target_name : string;
  target_type : string;
  target_path : string;
  target_filename : string
}.

Definition EXAMPLE : string :=
  "Example vba-block.toml:

  [[targets]]
  type = " +:+ dquote +:+ "xlsm" +:+ dquote +:+ "
  path = " +:+ dquote +:+ "targets/xlsm" +:+ dquote +:+ "

  [[targets]]
  name = " +:+ dquote +:+ "addin" +:+ dquote +:+ "
  type = " +:+ dquote +:+ "xlam" +:+ dquote +:+ "
  path = " +:+ dquote +:+ "targets/xlam" +:+ dquote.

Section Targets.
(** utils [unixJoin] and [sanitize]. *)
Variable unixJoin : string -> string -> string.
Variable sanitize : string -> string.

Definition parseTarget (value : TargetValue) (pkgName dir : string) : Result Target :=
  (* if (!has(value, 'name')) value = { name: pkgName, ...value } *)
  let name := match tv_name value with
              | Some own => own
              | None => pkgName
              end in
  match truthy (tv_type value) with
  | None =>
      Throw (AssertionError ("target " +:+ dquote +:+ name +:+ dquote
                             +:+ " is missing type. " +:+ EXAMPLE))
  | Some type =>
      match truthy (tv_path value) with
      | None =>
          Throw (AssertionError ("target " +:+ dquote +:+ name +:+ dquote
                                 +:+ " (type = " +:+ dquote +:+ type +:+ dquote
                                 +:+ ") is missing path. " +:+ EXAMPLE))
      | Some relativePath =>
          Ok {| target_name := name;
                target_type := type;
                target_path := unixJoin dir relativePath;
                target_filename := sanitize name +:+ "." +:+ type |}
      end
  end.

(** [values] is [None] when [Array.isArray] rejects what the manifest
    holds under [targets]. *)
Definition parseTargets (values : option (list TargetValue)) (pkgName dir : string)
  : Result (list Target) :=
  match values with
  | None => Throw (AssertionError ("targets must be an array. " +:+ EXAMPLE))
  | Some values' => mapR (fun value => parseTarget value pkgName dir) values'
  end.
End Targets.

(** ** Reading aids for the further properties *)

(** Two id strings that open with the same name. *)
Definition sameNameInId (a b : string) : Prop :=
  beforeChar space a = beforeChar space b.

Definition sameIdsOption (a b : option (list string)) : Prop :=
  match a, b with
  | Some ids, Some ids' => Forall2 sameNameInId ids ids'
  | None, None => True
  | _, _ => False
  end.

(** Two tables that differ at most in what follows the name in their
    dependency ids. *)
Definition sameManifestUpToIds (a b : TomlManifest) : Prop :=
  tm_name a = tm_name b /\ tm_version a = tm_version b
  /\ sameIdsOption (tm_dependencies a) (tm_dependencies b).

Definition samePackageUpToIds (a b : TomlPackage) : Prop :=
  tp_name a = tp_name b /\ tp_version a = tp_version b
  /\ tp_source a = tp_source b
  /\ sameIdsOption (tp_dependencies a) (tp_dependencies b).

Definition sameDocumentUpToIds (a b : TomlDocument) : Prop :=
  match doc_root a, doc_root b with
  | Some ra, Some rb => sameManifestUpToIds ra rb
  | None, None => True
  | _, _ => False
  end
  /\ Forall2 sameManifestUpToIds (orEmpty (doc_members a)) (orEmpty (doc_members b))
  /\ Forall2 samePackageUpToIds (orEmpty (doc_packages a)) (orEmpty (doc_packages b)).

(** A package table fromToml accepts: name, version and source are
    there and not empty, dependencies is an array. *)
Definition validPackage (value : TomlPackage) : bool :=
  match truthy (tp_name value), truthy (tp_version value),
        truthy (tp_source value), tp_dependencies value with
  | Some _, Some _, Some _, Some _ => true
  | _, _, _, _ => false
  end.

(** A target table parseTarget accepts. *)
Definition validTarget (value : TargetValue) : bool :=
  match truthy (tv_type value), truthy (tv_path value) with
  | Some _, Some _ => true
  | _, _ => false
  end.

(** A registration and the stand-in dependency for it. *)
Definition standsFor (d : Dependency) (r : Registration) : Prop :=
  dep_name d = reg_name r
  /\ dep_version d = reg_version r
  /\ dep_source d = Some (reg_source r).

(** Sample target tables. *)
Definition unixJoinSlash (dir path : string) : string := dir +:+ "/" +:+ path.
Definition sanitizeNothing (name : string) : string := name.

Definition targetXlsm : TargetValue :=
  {| tv_name := None; tv_type := Some "xlsm"; tv_path := Some "targets/xlsm" |}.
Definition targetAddin : TargetValue :=
  {| tv_name := Some "addin"; tv_type := Some "xlam"; tv_path := Some "targets/xlam" |}.
Definition targetNoPath : TargetValue :=
  {| tv_name := None; tv_type := Some "xlsm"; tv_path := None |}.

Definition neverFails (w : World) (file data : string)
  : option (Error * gmap string Node) := None.

(** Every dependency a lockfile holds: of its root, of its members and
    of its packages. *)
Definition lockfileDependencies (lockfile : Lockfile) : list Dependency :=
  (snap_dependencies (ws_root (workspace lockfile))
   ++ concat (List.map snap_dependencies (ws_members (workspace lockfile)))
   ++ concat (List.map reg_dependencies (packages lockfile)))%list.

Definition noPackageFound : Error :=
  AssertionError "No package found for dependency".

(** A cache that holds the archive of package "a", a registration
    whose source carries the digest of what is served, and a network
    on which downloads fail. *)
Definition cachedWorld : World :=
  {| fs := {[ "cache/packages/a-1.0.0.block" := File "archive bytes" ]}; journal := [] |}.

Definition registrationVerified : Registration :=
  {| reg_id := Some "a@1.0.0"; reg_name := "a"; reg_version := "1.0.0";
     reg_source := "registry+x#beefdead"; reg_dependencies := []; reg_features := None |}.

Definition downloadsFail (w : World) (a : Action) : option Error :=
  match a with
  | Download _ _ => Some (SystemError "ECONNRESET")
  | _ => None
  end.

(** A workspace of two members and a root of two dependencies, each
    listed in two orders. *)
Definition dependencyB : Dependency :=
  {| dep_name := "b"; dep_version := "2.0.0"; dep_source := None;
     dep_features := []; dep_optional := false; dep_default_features := true |}.

Definition memberTools : Snapshot :=
  {| snap_name := "tools"; snap_version := "0.3.0"; snap_dependencies := [dependencyA] |}.

Definition rootTwo : Snapshot :=
  {| snap_name := "app"; snap_version := "1.0.0";
     snap_dependencies := [dependencyA; dependencyB] |}.

Definition rootTwoSwapped : Snapshot :=
  {| snap_name := "app"; snap_version := "1.0.0";
     snap_dependencies := [dependencyB; dependencyA] |}.

Definition workspaceTwo : Workspace :=
  {| ws_root := rootTwo; ws_members := [sampleMember; memberTools] |}.

Definition workspaceTwoMembersSwapped : Workspace :=
  {| ws_root := rootTwo; ws_members := [memberTools; sampleMember] |}.

Definition workspaceTwoRootSwapped : Workspace :=
  {| ws_root := rootTwoSwapped; ws_members := [sampleMember; memberTools] |}.

Definition lockfileOf (current : Workspace) : Lockfile :=
  {| workspace := current; packages := [] |}.

(** A configuration whose registry is a mirror. *)
Definition mirrorConfig : Config :=
  {| registry_local := "cache/registry";
     registry_remote := "https://mirror.example/registry";
     resolveRemotePackage := resolveRemotePackage sampleConfig;
     resolveLocalPackage := resolveLocalPackage sampleConfig;
     resolveSource := resolveSource sampleConfig |}.

(** The property names every plain object inherits from
    [Object.prototype]: looked up in the [byName] object of
    isLockfileValid or compareDependencies they are found although no
    entry was stored under them, and stored under [__proto__] an entry
    becomes the object's prototype. *)
Definition objectPrototypeNames : list string :=
  ["constructor"; "__defineGetter__"; "__defineSetter__"; "hasOwnProperty";
   "__lookupGetter__"; "__lookupSetter__"; "isPrototypeOf"; "propertyIsEnumerable";
   "toString"; "valueOf"; "__proto__"; "toLocaleString"].

Definition plainName (name : string) : bool :=
  negb (existsb (String.eqb name) objectPrototypeNames).

(** A snapshot whose name and dependency names are none of these. *)
Definition plainNames (s : Snapshot) : bool :=
  plainName (snap_name s) && forallb (fun d => plainName (dep_name d)) (snap_dependencies s).

(* ===================================================================== *)
(** * Part II: properties                                                 *)
(* ===================================================================== *)

(** ** Dictionaries *)

Lemma foldl_insert_lookup {A} (name : A -> string) (xs : list A)
      (m : gmap string A) (n : string) :
  foldl (fun m x => <[name x := x]> m) m xs !! n =
  match lastNamed name xs n with
  | Some y => Some y
  | None => m !! n
  end.
Proof.
  revert m. induction xs as [|x rest IH]; intros m; simpl; [reflexivity|].
  rewrite IH. destruct (lastNamed name rest n) as [y|]; [reflexivity|].
  destruct (String.eqb_spec (name x) n) as [->|Hne].
  - apply lookup_insert_eq.
  - apply lookup_insert_ne. exact Hne.
Qed.

Lemma indexByName_lookup {A} (name : A -> string) (xs : list A) (n : string) :
  indexByName name xs !! n = lastNamed name xs n.
Proof.
  unfold indexByName. rewrite foldl_insert_lookup.
  destruct (lastNamed name xs n); [reflexivity | apply lookup_empty].
Qed.

Lemma lastNamed_Some {A} (name : A -> string) (xs : list A) (n : string) (x : A) :
  lastNamed name xs n = Some x -> x ∈ xs /\ name x = n.
Proof.
  induction xs as [|y rest IH]; simpl; [discriminate|].
  destruct (lastNamed name rest n) as [z|].
  - intros [= ->]. destruct (IH eq_refl) as [Hin Hn]. split; [|exact Hn].
    apply elem_of_cons. right. exact Hin.
  - destruct (String.eqb_spec (name y) n) as [Heq|Hne]; [|discriminate].
    intros [= ->]. split; [apply elem_of_cons; left; reflexivity | exact Heq].
Qed.

Lemma lastNamed_is_Some {A} (name : A -> string) (xs : list A) (n : string) :
  is_Some (lastNamed name xs n) <-> n ∈ List.map name xs.
Proof.
  induction xs as [|y rest IH]; simpl.
  - split; [intros [? [=]] | intros H; inversion H].
  - rewrite elem_of_cons, <- IH.
    destruct (lastNamed name rest n) as [z|].
    + split; [intros _; right; eauto | intros _; eauto].
    + destruct (String.eqb_spec (name y) n) as [Heq|Hne].
      * split; [intros _; left; congruence | intros _; eauto].
      * split; [intros [? [=]] | intros [Heq | [? [=]]]; congruence].
Qed.

(** With distinct names the designated entry is the only one of that name. *)
Lemma lastNamed_unique {A} (name : A -> string) (xs : list A) (x : A) :
  NoDup (List.map name xs) -> x ∈ xs -> lastNamed name xs (name x) = Some x.
Proof.
  induction xs as [|y rest IH]; simpl; intros Hnd Hin; [inversion Hin|].
  apply NoDup_cons in Hnd as [Hnotin Hnd].
  apply elem_of_cons in Hin as [->|Hin].
  - destruct (lastNamed name rest (name y)) as [z|] eqn:Hz.
    + exfalso. apply Hnotin. apply lastNamed_is_Some. rewrite Hz. eauto.
    + rewrite String.eqb_refl. reflexivity.
  - rewrite (IH Hnd Hin). reflexivity.
Qed.

(** ** Validity of a lockfile *)

Section ValidityFacts.
Variable satisfies : Dependency -> Dependency -> bool.

Lemma compareLocked_true (byName : gmap string Dependency) (locked : list Dependency) :
  compareLocked satisfies byName locked = true <->
  forall d, d ∈ locked ->
            exists c, byName !! dep_name d = Some c /\ satisfies c d = true.
Proof.
  induction locked as [|d rest IH]; simpl.
  - split; [intros _ d Hd; inversion Hd | reflexivity].
  - destruct (byName !! dep_name d) as [c|] eqn:Hc.
    + destruct (satisfies c d) eqn:Hs; simpl.
      * rewrite IH. split.
        -- intros H d' Hd'. apply elem_of_cons in Hd' as [->|Hd']; eauto.
        -- intros H d' Hd'. apply H. apply elem_of_cons. right. exact Hd'.
      * split; [discriminate|]. intros H.
        destruct (H d) as [c' [Hc' Hs']]; [apply elem_of_cons; left; reflexivity|].
        congruence.
    + split; [discriminate|]. intros H.
      destruct (H d) as [c' [Hc' _]]; [apply elem_of_cons; left; reflexivity|].
      congruence.
Qed.

Lemma compareDependencies_spec (current locked : Snapshot) :
  compareDependencies satisfies current locked = true <->
  dependenciesSatisfied satisfies current locked.
Proof.
  unfold compareDependencies, dependenciesSatisfied.
  destruct (Nat.eqb_spec (length (snap_dependencies current))
                         (length (snap_dependencies locked))) as [Hlen|Hlen]; simpl.
  - rewrite compareLocked_true. split.
    + intros H. split; [exact Hlen|]. split.
      * intros d Hd. destruct (H d Hd) as [c [Hc _]].
        rewrite indexByName_lookup in Hc.
        apply lastNamed_is_Some. rewrite Hc. eauto.
      * intros d c Hd Hc. destruct (H d Hd) as [c' [Hc' Hs]].
        rewrite indexByName_lookup in Hc'. congruence.
    + intros [_ [Hpresent Haccept]] d Hd.
      destruct (proj2 (lastNamed_is_Some dep_name (snap_dependencies current)
                                         (dep_name d)) (Hpresent d Hd)) as [c Hc].
      exists c. rewrite indexByName_lookup. split; [exact Hc | eauto].
  - split; [discriminate | intros [Hlen' _]; contradiction].
Qed.

Lemma compareMembers_true (byName : gmap string Snapshot) (members : list Snapshot) :
  compareMembers satisfies byName members = true <->
  forall m, m ∈ members ->
            exists cur, byName !! snap_name m = Some cur
                        /\ compareDependencies satisfies cur m = true.
Proof.
  induction members as [|m rest IH]; simpl.
  - split; [intros _ m Hm; inversion Hm | reflexivity].
  - destruct (byName !! snap_name m) as [cur|] eqn:Hcur.
    + destruct (compareDependencies satisfies cur m) eqn:Hs; simpl.
      * rewrite IH. split.
        -- intros H m' Hm'. apply elem_of_cons in Hm' as [->|Hm']; eauto.
        -- intros H m' Hm'. apply H. apply elem_of_cons. right. exact Hm'.
      * split; [discriminate|]. intros H.
        destruct (H m) as [c' [Hc' Hs']]; [apply elem_of_cons; left; reflexivity|].
        congruence.
    + split; [discriminate|]. intros H.
      destruct (H m) as [c' [Hc' _]]; [apply elem_of_cons; left; reflexivity|].
      congruence.
Qed.

(** C3.  isLockfileValid returns true exactly when the root pair and
    every matched member pair pass the dependency-set comparison, the
    member counts agree, and every lockfile member name has a
    same-named current member; the comparison asks for equal counts,
    every locked name among the current ones, and the current
    dependency of that name accepting the locked one
    ([satisfies current locked], never the reverse). *)
Theorem isLockfileValid_iff_spec (lockfile : Lockfile) (current : Workspace) :
  isLockfileValid satisfies lockfile current = true <->
  lockfileValidSpec satisfies lockfile current.
Proof.
  unfold isLockfileValid, lockfileValidSpec.
  destruct (compareDependencies satisfies (ws_root current)
                                (ws_root (workspace lockfile))) eqn:Hroot; simpl.
  - apply compareDependencies_spec in Hroot.
    destruct (Nat.eqb_spec (length (ws_members (workspace lockfile)))
                           (length (ws_members current))) as [Hlen|Hlen]; simpl.
    + rewrite compareMembers_true. split.
      * intros H. split; [exact Hroot|]. split; [exact Hlen|]. split.
        -- intros m Hm. destruct (H m Hm) as [cur [Hcur _]].
           rewrite indexByName_lookup in Hcur.
           apply lastNamed_is_Some. rewrite Hcur. eauto.
        -- intros m cur Hm Hcur. destruct (H m Hm) as [cur' [Hcur' Hcmp]].
           rewrite indexByName_lookup in Hcur'.
           apply compareDependencies_spec. congruence.
      * intros [_ [_ [Hpresent Hpairs]]] m Hm.
        destruct (proj2 (lastNamed_is_Some snap_name (ws_members current)
                                           (snap_name m)) (Hpresent m Hm)) as [cur Hcur].
        exists cur. rewrite indexByName_lookup. split; [exact Hcur|].
        apply compareDependencies_spec. eauto.
    + split; [discriminate | intros [_ [Hlen' _]]; contradiction].
  - split; [discriminate|]. intros [Hspec _].
    apply compareDependencies_spec in Hspec. congruence.
Qed.
End ValidityFacts.

(** ** What the validity check does not look at *)

Section ValidityBlind.
Variable satisfies : Dependency -> Dependency -> bool.




End ValidityBlind.


(** ** Traversals that may throw *)

Lemma mapR_Ok {A B} (f : A -> Result B) (xs : list A) (ys : list B) :
  mapR f xs = Ok ys -> Forall2 (fun x y => f x = Ok y) xs ys.
Proof.
  revert ys. induction xs as [|x rest IH]; simpl; intros ys.
  - intros [= <-]. constructor.
  - destruct (f x) as [y|e] eqn:Hx; simpl; [|discriminate].
    destruct (mapR f rest) as [ys'|e]; simpl; [|discriminate].
    intros [= <-]. constructor; [exact Hx | apply IH; reflexivity].
Qed.

Lemma mapR_all_Ok {A B} (f : A -> Result B) (xs : list A) (ys : list B) :
  Forall2 (fun x y => f x = Ok y) xs ys -> mapR f xs = Ok ys.
Proof.
  induction 1 as [|x y rest ys' Hx _ IH]; simpl; [reflexivity|].
  rewrite Hx, IH. reflexivity.
Qed.

(** The exception of a traversal is the one its callback threw on some
    element. *)
Lemma mapR_Throw {A B} (f : A -> Result B) (xs : list A) (e : Error) :
  mapR f xs = Throw e -> exists x, x ∈ xs /\ f x = Throw e.
Proof.
  induction xs as [|x rest IH]; simpl; [discriminate|].
  destruct (f x) as [y|e'] eqn:Hx; simpl.
  - destruct (mapR f rest) as [ys'|e'']; simpl; [discriminate|].
    intros [= ->]. destruct (IH eq_refl) as [x' [Hin Hx']].
    exists x'. split; [apply elem_of_cons; right; exact Hin | exact Hx'].
  - intros [= ->]. exists x. split; [apply elem_of_cons; left; reflexivity | exact Hx].
Qed.

(** A callback that throws on some element makes the traversal throw. *)
Lemma mapR_fails {A B} (f : A -> Result B) (xs : list A) (x : A) (e : Error) :
  x ∈ xs -> f x = Throw e -> exists e', mapR f xs = Throw e'.
Proof.
  induction xs as [|y rest IH]; intros Hin Hx; [inversion Hin|]. simpl.
  destruct (f y) as [b|e'] eqn:Hy; simpl; [|eauto].
  apply elem_of_cons in Hin as [->|Hin]; [congruence|].
  destruct (IH Hin Hx) as [e'' ->]. simpl. eauto.
Qed.

(** ** Hydration of dependency ids *)

Lemma getDependency_found (id : string) (byName : gmap string Dependency) (d : Dependency) :
  byName !! beforeChar space id = Some d -> getDependency id byName = Ok d.
Proof. unfold getDependency. intros ->. reflexivity. Qed.


Lemma getDependency_Ok (id : string) (byName : gmap string Dependency) (d : Dependency) :
  getDependency id byName = Ok d -> byName !! beforeChar space id = Some d.
Proof.
  unfold getDependency. destruct (byName !! beforeChar space id); [|discriminate].
  intros [= ->]. reflexivity.
Qed.

Lemma getDependency_Throw (id : string) (byName : gmap string Dependency) (e : Error) :
  getDependency id byName = Throw e ->
  byName !! beforeChar space id = None /\ e = packageNotFound id.
Proof.
  unfold getDependency. destruct (byName !! beforeChar space id); [discriminate|].
  intros [= <-]. split; reflexivity.
Qed.

Lemma hydrateIds_Ok (byName : gmap string Dependency) (ids : list string)
      (deps : list Dependency) :
  mapR (fun id => getDependency id byName) ids = Ok deps -> hydratedBy byName ids deps.
Proof.
  intros H. apply mapR_Ok in H. unfold hydratedBy.
  eapply Forall2_impl; [exact H|]. intros id d. apply getDependency_Ok.
Qed.

Lemma hydrateIds_Throw (byName : gmap string Dependency) (ids : list string) (e : Error) :
  mapR (fun id => getDependency id byName) ids = Throw e ->
  exists id, id ∈ ids /\ byName !! beforeChar space id = None /\ e = packageNotFound id.
Proof.
  intros H. apply mapR_Throw in H as [id [Hin Hid]].
  apply getDependency_Throw in Hid as [Hnone ->]. eauto.
Qed.


Lemma toManifest_Ok (value : TomlManifest) (byName : gmap string Dependency) (s : Snapshot) :
  toManifest value byName = Ok s ->
  tm_name value = Some (snap_name s)
  /\ tm_version value = Some (snap_version s)
  /\ hydratedBy byName (orEmpty (tm_dependencies value)) (snap_dependencies s).
Proof.
  unfold toManifest.
  destruct (tm_name value) as [[|c n]|]; simpl; try discriminate.
  destruct (tm_version value) as [[|c' v]|]; simpl; try discriminate.
  destruct (tm_dependencies value) as [ids|]; simpl; try discriminate.
  destruct (mapR _ ids) as [deps|e] eqn:Hdeps; simpl; [|discriminate].
  intros [= <-]. simpl. repeat split. apply hydrateIds_Ok. exact Hdeps.
Qed.

Lemma toManifest_Throw (value : TomlManifest) (byName : gmap string Dependency) (e : Error) :
  toManifest value byName = Throw e ->
  e = AssertionError "Invalid manifest in lockfile"
  \/ exists id, id ∈ orEmpty (tm_dependencies value)
                /\ byName !! beforeChar space id = None /\ e = packageNotFound id.
Proof.
  unfold toManifest.
  destruct (tm_name value) as [[|c n]|]; simpl;
    try (intros [= <-]; left; reflexivity).
  destruct (tm_version value) as [[|c' v]|]; simpl;
    try (intros [= <-]; left; reflexivity).
  destruct (tm_dependencies value) as [ids|]; simpl;
    try (intros [= <-]; left; reflexivity).
  destruct (mapR _ ids) as [deps|e'] eqn:Hdeps; simpl; [discriminate|].
  intros [= <-]. right. apply hydrateIds_Throw. exact Hdeps.
Qed.

Lemma hydrate_Ok (byName : gmap string Dependency) (sk : RegistrationOf string)
      (r : Registration) :
  hydrate byName sk = Ok r ->
  reg_id r = reg_id sk /\ reg_name r = reg_name sk /\ reg_version r = reg_version sk
  /\ reg_source r = reg_source sk
  /\ hydratedBy byName (reg_dependencies sk) (reg_dependencies r).
Proof.
  unfold hydrate. destruct (mapR _ (reg_dependencies sk)) as [deps|e] eqn:Hdeps;
    simpl; [|discriminate].
  intros [= <-]. simpl. repeat split. apply hydrateIds_Ok. exact Hdeps.
Qed.

Lemma hydrate_Throw (byName : gmap string Dependency) (sk : RegistrationOf string)
      (e : Error) :
  hydrate byName sk = Throw e ->
  exists id, id ∈ reg_dependencies sk
             /\ byName !! beforeChar space id = None /\ e = packageNotFound id.
Proof.
  unfold hydrate. destruct (mapR _ (reg_dependencies sk)) as [deps|e'] eqn:Hdeps;
    simpl; [discriminate|].
  intros [= <-]. apply hydrateIds_Throw. exact Hdeps.
Qed.

(** Pass 1 keeps the id strings of each package as they are written. *)
Lemma loadPackages_ids (values : list TomlPackage) (m m' : gmap string Dependency)
      (sks : list (RegistrationOf string)) :
  loadPackages values m = Ok (sks, m') ->
  List.map reg_dependencies sks =
  List.map (fun value => orEmpty (tp_dependencies value)) values.
Proof.
  revert m sks. induction values as [|v rest IH]; simpl; intros m sks.
  - intros [= <- _]. reflexivity.
  - destruct (truthy (tp_name v)) as [n|]; [|discriminate].
    destruct (truthy (tp_version v)) as [ver|]; [|discriminate].
    destruct (truthy (tp_source v)) as [src|]; [|discriminate].
    destruct (tp_dependencies v) as [ids|]; [|discriminate].
    destruct (loadPackages rest _) as [[sks' m'']|e] eqn:Hrest; simpl; [|discriminate].
    intros [= <- <-]. simpl. f_equal. eapply IH. exact Hrest.
Qed.

Lemma elem_of_concat_map {A B} (f : A -> list B) (xs : list A) (y : B) :
  y ∈ concat (List.map f xs) <-> exists x, x ∈ xs /\ y ∈ f x.
Proof.
  induction xs as [|x rest IH]; simpl.
  - split; [intros H; inversion H | intros [x [H _]]; inversion H].
  - rewrite elem_of_app, IH. split.
    + intros [H|[x' [Hin H]]].
      * exists x. split; [apply elem_of_cons; left; reflexivity | exact H].
      * exists x'. split; [apply elem_of_cons; right; exact Hin | exact H].
    + intros [x' [Hin H]]. apply elem_of_cons in Hin as [->|Hin]; eauto.
Qed.

Lemma Forall2_elem_of_l {A B} (P : A -> B -> Prop) (xs : list A) (ys : list B) (x : A) :
  Forall2 P xs ys -> x ∈ xs -> exists y, y ∈ ys /\ P x y.
Proof.
  induction 1 as [|a b xs' ys' Hab _ IH]; intros Hin; [inversion Hin|].
  apply elem_of_cons in Hin as [->|Hin].
  - exists b. split; [apply elem_of_cons; left; reflexivity | exact Hab].
  - destruct (IH Hin) as [y [Hy HP]]. exists y.
    split; [apply elem_of_cons; right; exact Hy | exact HP].
Qed.

Lemma documentIds_cases (parsed : TomlDocument) (parsedRoot : TomlManifest) (id : string) :
  doc_root parsed = Some parsedRoot ->
  id ∈ documentIds parsed <->
  (exists value, value ∈ orEmpty (doc_packages parsed)
                 /\ id ∈ orEmpty (tp_dependencies value))
  \/ id ∈ orEmpty (tm_dependencies parsedRoot)
  \/ (exists value, value ∈ orEmpty (doc_members parsed)
                    /\ id ∈ orEmpty (tm_dependencies value)).
Proof.
  intros Hroot. unfold documentIds. rewrite Hroot.
  rewrite !elem_of_app, !elem_of_concat_map. reflexivity.
Qed.



(** ** Round trip through the lockfile text *)

Lemma beforeChar_prefix (sep : ascii) (name rest : string) :
  hasChar sep name = false ->
  beforeChar sep (name +:+ String sep rest) = name.
Proof.
  induction name as [|c name IH]; simpl.
  - rewrite Ascii.eqb_refl. reflexivity.
  - intros H. apply orb_false_iff in H as [Hc Hrest].
    rewrite Hc, (IH Hrest). reflexivity.
Qed.

Lemma truthy_nonEmpty (s : string) : nonEmpty s = true -> truthy (Some s) = Some s.
Proof. destruct s; [discriminate | reflexivity]. Qed.

Lemma getRegistration_Some (accepts : Dependency -> string -> bool)
      (graph : DependencyGraph) (d : Dependency) (r : Registration) :
  getRegistration accepts graph d = Some r -> r ∈ graph /\ reg_name r = dep_name d.
Proof.
  unfold getRegistration.
  destruct (List.filter _ graph) as [|r' [|]] eqn:Hf; try discriminate.
  intros [= ->].
  assert (Hin : In r (List.filter
                        (fun registration =>
                           String.eqb (reg_name registration) (dep_name d)
                           && accepts d (reg_version registration)) graph))
    by (rewrite Hf; left; reflexivity).
  apply filter_In in Hin as [Hin Htest].
  apply andb_true_iff in Htest as [Hname _].
  split; [apply list_elem_of_In; exact Hin | apply String.eqb_eq; exact Hname].
Qed.

Lemma mapR_Forall2 {A B C} (f : B -> Result C) (R : A -> C -> Prop)
      (xs : list A) (ys : list B) :
  Forall2 (fun x y => exists z, f y = Ok z /\ R x z) xs ys ->
  exists zs, mapR f ys = Ok zs /\ Forall2 R xs zs.
Proof.
  induction 1 as [|x y xs' ys' [z [Hz HR]] _ [zs [Hzs HRs]]]; simpl.
  - exists []. split; [reflexivity | constructor].
  - rewrite Hz, Hzs. simpl. exists (z :: zs). split; [reflexivity|].
    constructor; assumption.
Qed.

Lemma Forall2_same {A} (R : A -> A -> Prop) (xs : list A) :
  (forall x, x ∈ xs -> R x x) -> Forall2 R xs xs.
Proof.
  induction xs as [|x rest IH]; intros H; constructor.
  - apply H. apply elem_of_cons. left. reflexivity.
  - apply IH. intros y Hy. apply H. apply elem_of_cons. right. exact Hy.
Qed.

Section RoundTrip.
Variable accepts : Dependency -> string -> bool.
Variable graph : DependencyGraph.

(** Writing: a resolvable dependency gets its id. *)
Lemma toDependencyIds_complete (ds : list Dependency) :
  forallb (resolvable accepts graph) ds = true ->
  exists ids, mapR (fun d => toDependencyId accepts d graph) ds = Ok ids
              /\ Forall2 (idFor graph) ds ids.
Proof.
  intros Hall.
  destruct (mapR_Forall2 (fun d => toDependencyId accepts d graph) (idFor graph) ds ds)
    as [ids [Hids HF]]; [|eauto].
  apply Forall2_same. intros d Hd.
  apply list_elem_of_In in Hd. rewrite forallb_forall in Hall. specialize (Hall d Hd).
  unfold resolvable in Hall. unfold toDependencyId.
  destruct (getRegistration accepts graph d) as [r|] eqn:Hr; [|discriminate].
  apply getRegistration_Some in Hr as [Hin Hname].
  eexists. split; [reflexivity|]. exists r. auto.
Qed.

(** Reading: an id written for a dependency hydrates to a dependency
    of the same name. *)
Lemma hydrate_written_ids (byName : gmap string Dependency)
      (ds : list Dependency) (ids : list string) :
  (forall r, r ∈ graph -> spaceFree (reg_name r) = true) ->
  (forall r, r ∈ graph ->
             exists d, byName !! reg_name r = Some d /\ dep_name d = reg_name r) ->
  Forall2 (idFor graph) ds ids ->
  exists ds', mapR (fun id => getDependency id byName) ids = Ok ds'
              /\ List.map dep_name ds = List.map dep_name ds'.
Proof.
  intros Hfree Hmap HF.
  destruct (mapR_Forall2 (fun id => getDependency id byName)
                         (fun d d' => dep_name d = dep_name d') ds ids)
    as [ds' [Hds' HF']].
  - eapply Forall2_impl; [exact HF|].
    intros d id [r [Hin [Hname ->]]].
    destruct (Hmap r Hin) as [d' [Hd' Hname']].
    exists d'. split; [|congruence].
    apply getDependency_found.
    replace (dep_name d +:+ " " +:+ reg_version r +:+ " " +:+ reg_source r)
      with (dep_name d +:+ String space (reg_version r +:+ " " +:+ reg_source r))
      by reflexivity.
    rewrite beforeChar_prefix; [rewrite <- Hname; exact Hd'|].
    rewrite <- Hname. specialize (Hfree r Hin). unfold spaceFree in Hfree.
    apply negb_true_iff. exact Hfree.
  - exists ds'. split; [exact Hds'|].
    clear Hds' HF. induction HF' as [|d d' l l' Hd _ IH]; simpl; [reflexivity|].
    rewrite Hd, IH. reflexivity.
Qed.
End RoundTrip.

(** Pass 1 maps each package name to the stand-in of the last package
    listed under it. *)
Lemma loadPackages_byName (values : list TomlPackage) (m m' : gmap string Dependency)
      (sks : list (RegistrationOf string)) (n : string) :
  loadPackages values m = Ok (sks, m') ->
  m' !! n = match lastNamed reg_name sks n with
            | Some sk => Some (toDependency sk)
            | None => m !! n
            end.
Proof.
  revert m sks. induction values as [|v rest IH]; simpl; intros m sks.
  - intros [= <- <-]. reflexivity.
  - destruct (truthy (tp_name v)) as [name|]; [|discriminate].
    destruct (truthy (tp_version v)) as [ver|]; [|discriminate].
    destruct (truthy (tp_source v)) as [src|]; [|discriminate].
    destruct (tp_dependencies v) as [ids|]; [|discriminate].
    destruct (loadPackages rest _) as [[sks' m'']|e] eqn:Hrest; simpl; [|discriminate].
    intros [= <- <-]. simpl. rewrite (IH _ _ Hrest).
    destruct (lastNamed reg_name sks' n) as [sk|]; [reflexivity|].
    destruct (String.eqb_spec name n) as [->|Hne].
    + apply lookup_insert_eq.
    + apply lookup_insert_ne. exact Hne.
Qed.

Section RoundTripSteps.
Variable accepts : Dependency -> string -> bool.
Variable graph : DependencyGraph.

Lemma prepareManifest_complete (s : Snapshot) :
  forallb (resolvable accepts graph) (snap_dependencies s) = true ->
  exists value, prepareManifest accepts s graph = Ok value
                /\ writtenManifest graph s value.
Proof.
  intros H. destruct (toDependencyIds_complete accepts graph _ H) as [ids [Hids HF]].
  unfold prepareManifest. rewrite Hids. simpl.
  eexists. split; [reflexivity|]. exists ids. split; [reflexivity | exact HF].
Qed.

Lemma preparePackage_complete (r : Registration) :
  forallb (resolvable accepts graph) (reg_dependencies r) = true ->
  exists value, preparePackage accepts graph r = Ok value
                /\ writtenPackage graph r value.
Proof.
  intros H. destruct (toDependencyIds_complete accepts graph _ H) as [ids [Hids HF]].
  unfold preparePackage. rewrite Hids. simpl.
  eexists. split; [reflexivity|]. exists ids. split; [reflexivity | exact HF].
Qed.

Lemma loadPackages_written (rs : list Registration) (values : list TomlPackage)
      (m : gmap string Dependency) :
  Forall2 (writtenPackage graph) rs values ->
  (forall r, r ∈ rs -> nonEmpty (reg_name r) = true
                       /\ nonEmpty (reg_version r) = true
                       /\ nonEmpty (reg_source r) = true) ->
  exists sks m',
    loadPackages values m = Ok (sks, m')
    /\ Forall2 (fun r sk =>
                  reg_name sk = reg_name r /\ reg_version sk = reg_version r
                  /\ Forall2 (idFor graph) (reg_dependencies r) (reg_dependencies sk))
               rs sks.
Proof.
  intros HF. revert m.
  induction HF as [|r v rs' vs' [ids [-> Hids]] _ IH]; intros m Hwf.
  - exists [], m. split; [reflexivity | constructor].
  - destruct (Hwf r) as [Hn [Hv Hs]]; [apply elem_of_cons; left; reflexivity|].
    cbn [loadPackages tp_name tp_version tp_source tp_dependencies].
    rewrite (truthy_nonEmpty _ Hn), (truthy_nonEmpty _ Hv), (truthy_nonEmpty _ Hs).
    edestruct IH as [sks [m' [Hload HF']]];
      [intros r' Hr'; apply Hwf; apply elem_of_cons; right; exact Hr'|].
    rewrite Hload. simpl. eexists. eexists. split; [reflexivity|].
    constructor; [simpl; auto | exact HF'].
Qed.

Variable byName : gmap string Dependency.
Hypothesis names_spaceFree : forall r, r ∈ graph -> spaceFree (reg_name r) = true.
Hypothesis names_mapped :
  forall r, r ∈ graph ->
            exists d, byName !! reg_name r = Some d /\ dep_name d = reg_name r.

Lemma hydrate_written (r : Registration) (sk : RegistrationOf string) :
  reg_name sk = reg_name r ->
  reg_version sk = reg_version r ->
  Forall2 (idFor graph) (reg_dependencies r) (reg_dependencies sk) ->
  exists r', hydrate byName sk = Ok r' /\ sameRegistrationIdentity r r'.
Proof.
  intros Hn Hv HF.
  destruct (hydrate_written_ids graph byName _ _ names_spaceFree names_mapped HF)
    as [ds' [Hds' Hnames]].
  unfold hydrate. rewrite Hds'. simpl. eexists. split; [reflexivity|].
  unfold sameRegistrationIdentity. simpl. auto.
Qed.

Lemma toManifest_written (s : Snapshot) (value : TomlManifest) :
  nonEmpty (snap_name s) = true ->
  nonEmpty (snap_version s) = true ->
  writtenManifest graph s value ->
  exists s', toManifest value byName = Ok s' /\ sameSnapshotIdentity s s'.
Proof.
  intros Hn Hv [ids [-> HF]].
  destruct (hydrate_written_ids graph byName _ _ names_spaceFree names_mapped HF)
    as [ds' [Hds' Hnames]].
  unfold toManifest. simpl tm_name. simpl tm_version. simpl tm_dependencies.
  rewrite (truthy_nonEmpty _ Hn), (truthy_nonEmpty _ Hv), Hds'. simpl.
  eexists. split; [reflexivity|].
  unfold sameSnapshotIdentity. simpl. auto.
Qed.

Lemma toManifests_written (ms : list Snapshot) (values : list TomlManifest) :
  Forall2 (writtenManifest graph) ms values ->
  (forall member, In member ms ->
                  nonEmpty (snap_name member) && nonEmpty (snap_version member) = true) ->
  Forall2 (fun member value =>
             exists s', toManifest value byName = Ok s' /\ sameSnapshotIdentity member s')
          ms values.
Proof.
  induction 1 as [|member value ms' vs' HW _ IH]; intros Hwf; constructor.
  - destruct (proj1 (andb_true_iff _ _) (Hwf member (or_introl eq_refl))) as [Hn Hv].
    apply (toManifest_written member value Hn Hv HW).
  - apply IH. intros m Hin. apply Hwf. right. exact Hin.
Qed.
End RoundTripSteps.

(** fromToml reads the root table and the two arrays of tables only. *)
Lemma fromParsed_same_tables (a b : TomlDocument) :
  doc_root a = doc_root b ->
  orEmpty (doc_members a) = orEmpty (doc_members b) ->
  orEmpty (doc_packages a) = orEmpty (doc_packages b) ->
  fromParsed a = fromParsed b.
Proof. unfold fromParsed. intros -> -> ->. reflexivity. Qed.

(** C1, as amended.  For a lockfile with a complete graph whose names,
    versions and package sources are not empty and whose package names
    hold no space, and a TOML codec that reads back the tables it
    wrote, toToml returns a text and fromToml of that text returns a
    lockfile with the same root, member and package names and versions
    and the same dependency names for the root, each member and each
    package. *)
Theorem fromToml_toToml_round_trip
        (parseToml : string -> Result TomlDocument)
        (convertToToml : TomlDocument -> string)
        (accepts : Dependency -> string -> bool)
        (lockfile : Lockfile) :
  completeGraph accepts lockfile = true ->
  wellFormedNames lockfile = true ->
  (forall document,
      prepareDocument accepts lockfile = Ok document ->
      codecRoundTrips parseToml convertToToml document) ->
  exists toml lockfile',
    toToml convertToToml accepts lockfile = Ok toml
    /\ fromToml parseToml toml = Ok lockfile'
    /\ sameIdentity lockfile lockfile'.
Proof.
  intros Hcomplete Hnames Hcodec.
  set (graph := packages lockfile) in *.
  unfold completeGraph in Hcomplete. fold graph in Hcomplete.
  apply andb_true_iff in Hcomplete as [Hcomplete Hcp].
  apply andb_true_iff in Hcomplete as [Hcr Hcm].
  unfold wellFormedNames in Hnames. fold graph in Hnames.
  apply andb_true_iff in Hnames as [Hnames Hnp].
  apply andb_true_iff in Hnames as [Hnames Hnm].
  apply andb_true_iff in Hnames as [Hnr Hvr].
  rewrite forallb_forall in Hcm, Hcp, Hnm, Hnp.
  (* writing *)
  destruct (prepareManifest_complete accepts graph _ Hcr) as [rootT [HrootT HrootW]].
  destruct (mapR_Forall2 (fun member => prepareManifest accepts member graph)
                         (writtenManifest graph)
                         (ws_members (workspace lockfile))
                         (ws_members (workspace lockfile)))
    as [membersT [HmembersT HmembersW]].
  { apply Forall2_same. intros member Hin. apply prepareManifest_complete.
    apply Hcm. apply list_elem_of_In. exact Hin. }
  destruct (mapR_Forall2 (preparePackage accepts graph) (writtenPackage graph) graph graph)
    as [packagesT [HpackagesT HpackagesW]].
  { apply Forall2_same. intros r Hin. apply preparePackage_complete.
    apply Hcp. apply list_elem_of_In. exact Hin. }
  assert (Hdoc : prepareDocument accepts lockfile =
                 Ok {| doc_root := Some rootT; doc_members := Some membersT;
                       doc_packages := Some packagesT |}).
  { unfold prepareDocument. fold graph. rewrite HrootT. simpl.
    rewrite HmembersT. simpl. rewrite HpackagesT. reflexivity. }
  destruct (Hcodec _ Hdoc) as [parsed [Hparse [Hproot [Hpmembers Hppackages]]]].
  eexists. unfold toToml. rewrite Hdoc. simpl.
  unfold fromToml. rewrite Hparse. simpl.
  rewrite (fromParsed_same_tables _ _ Hproot Hpmembers Hppackages).
  (* reading: pass 1 *)
  assert (Hwf : forall r, r ∈ graph ->
                          nonEmpty (reg_name r) = true /\ spaceFree (reg_name r) = true
                          /\ nonEmpty (reg_version r) = true
                          /\ nonEmpty (reg_source r) = true).
  { intros r Hin. apply list_elem_of_In in Hin. specialize (Hnp r Hin).
    apply andb_true_iff in Hnp as [Hnp Hs]. apply andb_true_iff in Hnp as [Hnp Hv].
    apply andb_true_iff in Hnp as [Hn Hf]. auto. }
  destruct (loadPackages_written graph graph packagesT ∅ HpackagesW)
    as [sks [byName [Hload Hsks]]].
  { intros r Hin. destruct (Hwf r Hin) as [? [? [? ?]]]. auto. }
  assert (Hfree : forall r, r ∈ graph -> spaceFree (reg_name r) = true).
  { intros r Hin. apply Hwf. exact Hin. }
  assert (Hmapped : forall r, r ∈ graph ->
             exists d, byName !! reg_name r = Some d /\ dep_name d = reg_name r).
  { intros r Hin. destruct (Forall2_elem_of_l _ _ _ _ Hsks Hin) as [sk [Hsk [Hn _]]].
    assert (Hsome : is_Some (lastNamed reg_name sks (reg_name r))).
    { apply lastNamed_is_Some. rewrite <- Hn. apply list_elem_of_In. apply in_map.
      apply list_elem_of_In. exact Hsk. }
    destruct Hsome as [sk' Hsk'].
    rewrite (loadPackages_byName _ _ _ _ (reg_name r) Hload), Hsk'.
    eexists. split; [reflexivity|]. simpl.
    apply lastNamed_Some in Hsk' as [_ Hname]. exact Hname. }
  (* reading: pass 2 and the manifests *)
  destruct (mapR_Forall2 (hydrate byName) sameRegistrationIdentity graph sks)
    as [packages' [Hpackages' Hsamep]].
  { eapply Forall2_impl; [exact Hsks|]. intros r sk [Hn [Hv HF]].
    apply (hydrate_written graph byName Hfree Hmapped r sk Hn Hv HF). }
  destruct (toManifest_written graph byName Hfree Hmapped _ rootT Hnr Hvr HrootW)
    as [root' [Hroot' Hsamer]].
  destruct (mapR_Forall2 (fun member => toManifest member byName) sameSnapshotIdentity
                         (ws_members (workspace lockfile)) membersT)
    as [members' [Hmembers' Hsamem]].
  { apply (toManifests_written graph byName Hfree Hmapped _ _ HmembersW Hnm). }
  unfold fromParsed. simpl doc_root. simpl doc_members. simpl doc_packages.
  simpl orEmpty. rewrite Hload. simpl. rewrite Hpackages'. simpl.
  rewrite Hroot'. simpl. rewrite Hmembers'. simpl.
  eexists. split; [reflexivity|]. split; [reflexivity|].
  unfold sameIdentity. simpl. auto.
Qed.

(** The sample lockfile survives the round trip through its text. *)
Lemma fromToml_toToml_round_trip_witness :
  exists toml lockfile',
    toToml sampleConvert acceptsExact sampleLockfile = Ok toml
    /\ fromToml sampleParse toml = Ok lockfile'
    /\ sameIdentity sampleLockfile lockfile'.
Proof.
  apply (fromToml_toToml_round_trip sampleParse sampleConvert acceptsExact sampleLockfile).
  - reflexivity.
  - reflexivity.
  - intros document Hdocument. vm_compute in Hdocument.
    injection Hdocument as <-. exists sampleWritten.
    split; [reflexivity|]. split; [reflexivity|]. split; reflexivity.
Defined.

(** C1, as stated, fails.  A complete graph does not make the round
    trip succeed: with a package name that holds a space the id written
    for a dependency on it is cut at that space when read back, and a
    root without a name is refused on reading.  Whatever the codec, as
    long as it reads back what it wrote, fromToml of the text toToml
    wrote throws. *)
Lemma fromToml_toToml_round_trip_counterexample :
  (completeGraph acceptsExact spacedLockfile = true
   /\ forall parseToml convertToToml,
       (forall document,
           prepareDocument acceptsExact spacedLockfile = Ok document ->
           codecRoundTrips parseToml convertToToml document) ->
       exists toml,
         toToml convertToToml acceptsExact spacedLockfile = Ok toml
         /\ fromToml parseToml toml =
            Throw (packageNotFound "my lib 1.0.0 registry+x#c1"))
  /\ (completeGraph acceptsExact unnamedLockfile = true
      /\ forall parseToml convertToToml,
          (forall document,
              prepareDocument acceptsExact unnamedLockfile = Ok document ->
              codecRoundTrips parseToml convertToToml document) ->
          exists toml,
            toToml convertToToml acceptsExact unnamedLockfile = Ok toml
            /\ fromToml parseToml toml =
               Throw (AssertionError "Invalid manifest in lockfile")).
Proof.
  split; (split; [reflexivity|]); intros parseToml convertToToml Hcodec.
  - assert (Hwritten : exists document,
               prepareDocument acceptsExact spacedLockfile = Ok document
               /\ fromParsed document =
                  Throw (packageNotFound "my lib 1.0.0 registry+x#c1"))
      by (eexists; split; reflexivity).
    destruct Hwritten as [document [Hdocument Hfails]].
    destruct (Hcodec _ Hdocument) as [parsed [Hparse [Hroot [Hmembers Hpackages]]]].
    exists (convertToToml document). unfold toToml, fromToml.
    rewrite Hdocument. simpl. rewrite Hparse. simpl.
    rewrite (fromParsed_same_tables _ _ Hroot Hmembers Hpackages).
    split; [reflexivity | exact Hfails].
  - assert (Hwritten : exists document,
               prepareDocument acceptsExact unnamedLockfile = Ok document
               /\ fromParsed document =
                  Throw (AssertionError "Invalid manifest in lockfile"))
      by (eexists; split; reflexivity).
    destruct Hwritten as [document [Hdocument Hfails]].
    destruct (Hcodec _ Hdocument) as [parsed [Hparse [Hroot [Hmembers Hpackages]]]].
    exists (convertToToml document). unfold toToml, fromToml.
    rewrite Hdocument. simpl. rewrite Hparse. simpl.
    rewrite (fromParsed_same_tables _ _ Hroot Hmembers Hpackages).
    split; [reflexivity | exact Hfails].
Qed.

(** ** The path of an index file *)

(** C6.  getPath at the names of the specification.  What it hands to
    [path.join] after the mirror directory is 1, the name and the name
    again for a one-character name, 2, the name and the name again for
    a two-character name, 3, the first character and the name for a
    three-character name, and the first two characters, the next two
    and the name for a longer name.  A join that prints numbers puts
    ["a"] under [1/a/a] and ["ab"] under [2/ab/ab]; the join of Node
    refuses the number. *)
Theorem getPath_at_specified_names :
  (forall (join : list PathPart -> Result string) (config : Config),
      getPath join config "a"
      = join [PStr (registry_local config); PNum 1; PStr "a"; PStr "a"]
      /\ getPath join config "ab"
         = join [PStr (registry_local config); PNum 2; PStr "ab"; PStr "ab"]
      /\ getPath join config "abc"
         = join [PStr (registry_local config); PNum 3; PStr "a"; PStr "abc"]
      /\ getPath join config "abcde"
         = join [PStr (registry_local config); PStr "ab"; PStr "cd"; PStr "abcde"])
  /\ getPath joinLenient sampleConfig "a" = Ok "cache/registry/1/a/a"
  /\ getPath joinLenient sampleConfig "ab" = Ok "cache/registry/2/ab/ab"
  /\ getPath joinLenient sampleConfig "abc" = Ok "cache/registry/3/a/abc"
  /\ getPath joinLenient sampleConfig "abcde" = Ok "cache/registry/ab/cd/abcde"
  /\ getPath joinStrict sampleConfig "a"
     = Throw (TypeError "Path must be a string. Received 1")
  /\ getPath joinStrict sampleConfig "abcde" = Ok "cache/registry/ab/cd/abcde".
Proof.
  split; [intros join config; repeat split; reflexivity|].
  repeat split; reflexivity.
Qed.

(** ** Reading an index file *)

Section IndexReader.
Variable JSON_parse : string -> Result IndexRecord.

(** Lines that parse are folded into the array: each record that is
    not yanked adds its registration at the end. *)
Lemma deliver_parsed_lines (lines : list string) (records : list IndexRecord)
      (rest : list ReaderEvent) (registrations : list Registration) :
  Forall2 (fun line parsed => JSON_parse line = Ok parsed) lines records ->
  deliver JSON_parse (List.map Line lines ++ rest)%list registrations
  = deliver JSON_parse rest
            (registrations ++
             List.map toRegistration
               (List.filter (fun parsed => negb (rec_yanked parsed)) records))%list.
Proof.
  intros HF. revert registrations.
  induction HF as [|line parsed lines' records' Hline _ IH]; intros registrations; simpl.
  - rewrite app_nil_r. reflexivity.
  - unfold onLine. rewrite Hline. simpl.
    destruct (rec_yanked parsed); simpl.
    + apply IH.
    + rewrite IH. rewrite <- app_assoc. reflexivity.
Qed.

(** The first line that does not parse ends the delivery with its
    exception uncaught. *)
Lemma deliver_malformed_line (lines : list string) (rest : list ReaderEvent)
      (registrations : list Registration) (line : string) (e : Error) :
  line ∈ lines ->
  JSON_parse line = Throw e ->
  exists line' e',
    line' ∈ lines /\ JSON_parse line' = Throw e'
    /\ deliver JSON_parse (List.map Line lines ++ rest)%list registrations = Uncaught e'.
Proof.
  intros Hin Hline. revert registrations.
  induction lines as [|l lines' IH]; intros registrations; [inversion Hin|].
  simpl. unfold onLine. destruct (JSON_parse l) as [parsed|e'] eqn:Hl; simpl.
  - apply elem_of_cons in Hin as [->|Hin]; [congruence|].
    destruct (rec_yanked parsed);
      (edestruct (IH Hin) as [line' [e'' [Hin' [Hthrow Hdeliver]]]];
       exists line', e''; split; [apply elem_of_cons; right; exact Hin'|];
       split; [exact Hthrow | exact Hdeliver]).
  - exists l, e'. split; [apply elem_of_cons; left; reflexivity|].
    split; [exact Hl | reflexivity].
Qed.
End IndexReader.

(** C5.  When some line of the index file is not valid JSON, resolve
    does not return: whatever the reader reports after the lines, the
    promise is not resolved with any sequence of registrations, partial
    or not.  The exception of the first malformed line leaves the line
    listener uncaught. *)
Theorem resolve_malformed_line_returns_nothing
        (join : list PathPart -> Result string)
        (readLines : string -> list ReaderEvent)
        (JSON_parse : string -> Result IndexRecord)
        (config : Config) (dependency : Dependency)
        (path : string) (lines : list string) (rest : list ReaderEvent)
        (line : string) (e : Error) :
  getPath join config (dep_name dependency) = Ok path ->
  readLines path = (List.map Line lines ++ rest)%list ->
  line ∈ lines ->
  JSON_parse line = Throw e ->
  (exists line' e',
      line' ∈ lines /\ JSON_parse line' = Throw e'
      /\ resolve join readLines JSON_parse config dependency = Uncaught e')
  /\ forall registrations,
      resolve join readLines JSON_parse config dependency <> Resolved registrations.
Proof.
  intros Hpath Hread Hin Hline.
  destruct (deliver_malformed_line JSON_parse lines rest [] line e Hin Hline)
    as [line' [e' [Hin' [Hthrow Hdeliver]]]].
  assert (Hresolve : resolve join readLines JSON_parse config dependency = Uncaught e').
  { unfold resolve. rewrite Hpath, Hread. exact Hdeliver. }
  split; [exists line', e'; auto|].
  intros registrations. rewrite Hresolve. discriminate.
Qed.

(** A malformed third line: nothing is returned, not even the
    registration of the first line. *)
Lemma resolve_malformed_line_returns_nothing_witness :
  exists line e,
    line ∈ ["{left-pad 1.0.0}"; "{left-pad 1.1.0 yanked}"; "left-pad 1.2.0"]
    /\ sampleJsonParse line = Throw e
    /\ resolve joinLenient
               (fun _ => [Line "{left-pad 1.0.0}"; Line "{left-pad 1.1.0 yanked}";
                          Line "left-pad 1.2.0"; Close])
               sampleJsonParse sampleConfig dependencyLeftPad
       = Uncaught e.
Proof.
  refine (proj1 (resolve_malformed_line_returns_nothing
                   joinLenient
                   (fun _ => [Line "{left-pad 1.0.0}"; Line "{left-pad 1.1.0 yanked}";
                              Line "left-pad 1.2.0"; Close])
                   sampleJsonParse sampleConfig dependencyLeftPad
                   "cache/registry/le/ft/left-pad"
                   ["{left-pad 1.0.0}"; "{left-pad 1.1.0 yanked}"; "left-pad 1.2.0"]
                   [Close] "left-pad 1.2.0" (SyntaxError "Unexpected token")
                   _ _ _ _)).
  - reflexivity.
  - reflexivity.
  - repeat constructor.
  - reflexivity.
Defined.

Lemma append_cancel_l (s a b : string) : s +:+ a = s +:+ b -> a = b.
Proof.
  induction s as [|c s IH]; simpl; [tauto|]. intros [= H]. exact (IH H).
Qed.

Lemma length_append (a b : string) :
  String.length (a +:+ b) = String.length a + String.length b.
Proof. induction a as [|c a IH]; simpl; [reflexivity | rewrite IH; reflexivity]. Qed.

Lemma append_cancel_r (a b s : string) : a +:+ s = b +:+ s -> a = b.
Proof.
  revert b. induction a as [|c a IH]; intros [|c' b]; simpl; intros H.
  - reflexivity.
  - exfalso. apply (f_equal String.length) in H. simpl in H.
    rewrite !length_append in H. simpl in H. lia.
  - exfalso. apply (f_equal String.length) in H. simpl in H.
    rewrite !length_append in H. simpl in H. lia.
  - injection H as -> H. rewrite (IH _ H). reflexivity.
Qed.

(** C7.  When every line of the index file parses and the reader then
    closes, resolve returns, in file order, one registration for each
    record that is not yanked and none for a yanked record; the
    constraint of the queried dependency plays no part.  Each
    registration takes its name from [name], its version from [vers]
    and its dependencies field for field from [deps].  Its source is
    "registry+https://github.com/vba-blocks/registry#{cksum}": the url
    is the one written in resolve, and whenever [config.registry.remote]
    is another url the source is not "registry+{remote}#{cksum}". *)
Theorem resolve_drops_yanked_records
        (join : list PathPart -> Result string)
        (readLines : string -> list ReaderEvent)
        (JSON_parse : string -> Result IndexRecord)
        (config : Config) (dependency : Dependency)
        (path : string) (lines : list string) (records : list IndexRecord)
        (rest : list ReaderEvent) :
  getPath join config (dep_name dependency) = Ok path ->
  readLines path = (List.map Line lines ++ Close :: rest)%list ->
  Forall2 (fun line parsed => JSON_parse line = Ok parsed) lines records ->
  resolve join readLines JSON_parse config dependency
  = Resolved (List.map toRegistration
                (List.filter (fun parsed => negb (rec_yanked parsed)) records))
  /\ (forall parsed,
         reg_name (toRegistration parsed) = rec_name parsed
         /\ reg_version (toRegistration parsed) = rec_vers parsed
         /\ reg_source (toRegistration parsed)
            = "registry+https://github.com/vba-blocks/registry#" +:+ rec_cksum parsed
         /\ reg_features (toRegistration parsed) = rec_features parsed
         /\ Forall2 (fun dep registryDependency =>
                       dep_name registryDependency = idx_name dep
                       /\ dep_version registryDependency = idx_req dep
                       /\ dep_features registryDependency = idx_features dep
                       /\ dep_optional registryDependency = idx_optional dep
                       /\ dep_default_features registryDependency
                          = idx_default_features dep)
                    (rec_deps parsed) (reg_dependencies (toRegistration parsed)))
  /\ (registry_remote config <> "https://github.com/vba-blocks/registry" ->
      forall parsed,
        reg_source (toRegistration parsed)
        <> "registry+" +:+ registry_remote config +:+ "#" +:+ rec_cksum parsed).
Proof.
  intros Hpath Hread Hparsed. split; [|split].
  - unfold resolve. rewrite Hpath, Hread.
    rewrite (deliver_parsed_lines JSON_parse lines records _ [] Hparsed). reflexivity.
  - intros parsed. repeat split. simpl.
    induction (rec_deps parsed) as [|dep deps IH]; simpl; constructor; auto.
  - intros Hremote parsed Hsource. apply Hremote.
    change (reg_source (toRegistration parsed))
      with ("registry+" +:+ "https://github.com/vba-blocks/registry"
            +:+ "#" +:+ rec_cksum parsed) in Hsource.
    apply append_cancel_l in Hsource. apply append_cancel_r in Hsource.
    symmetry. exact Hsource.
Qed.

(** The sample index read under the mirror configuration: versions
    1.0.0 and 1.2.0 come back, the yanked 1.1.0 does not although
    ^1.0.0 would accept it, and the sources name the registry written
    in resolve, not the mirror. *)
Lemma resolve_drops_yanked_records_witness :
  resolve joinLenient (fun _ => (List.map Line sampleIndexLines ++ [Close])%list)
          sampleJsonParse mirrorConfig dependencyLeftPad
  = Resolved [toRegistration (recordLeftPad "1.0.0" "abc123" false);
              toRegistration (recordLeftPad "1.2.0" "789abc" false)]
  /\ reg_source (toRegistration (recordLeftPad "1.0.0" "abc123" false))
     = "registry+https://github.com/vba-blocks/registry#abc123"
  /\ reg_source (toRegistration (recordLeftPad "1.0.0" "abc123" false))
     <> "registry+https://mirror.example/registry#abc123".
Proof.
  destruct (resolve_drops_yanked_records
              joinLenient (fun _ => (List.map Line sampleIndexLines ++ [Close])%list)
              sampleJsonParse mirrorConfig dependencyLeftPad
              "cache/registry/le/ft/left-pad" sampleIndexLines
              [recordLeftPad "1.0.0" "abc123" false; recordLeftPad "1.1.0" "def456" true;
               recordLeftPad "1.2.0" "789abc" false]
              [] eq_refl eq_refl ltac:(repeat constructor))
    as [Hresolve [Hfields Hmirror]].
  split; [exact Hresolve|]. split.
  - exact (proj1 (proj2 (proj2 (Hfields (recordLeftPad "1.0.0" "abc123" false))))).
  - apply (Hmirror ltac:(discriminate) (recordLeftPad "1.0.0" "abc123" false)).
Defined.

(** ** Fetching a package *)

Section Fetch.
Variable fault : World -> Action -> option Error.
Variable served : string -> string.
Variable getDigest : string -> string.
Variable tmpName : World -> string.
Variable unpack : string -> string -> gmap string Node -> gmap string Node.

Lemma perform_Ok (a : Action) (effect : gmap string Node -> gmap string Node)
      (w w' : World) (u : unit) :
  perform fault a effect w = (w', Ok u) ->
  fault w a = None /\ fs w' = effect (fs w) /\ journal w' = (journal w ++ [a])%list.
Proof.
  unfold perform. destruct (fault w a); [discriminate|].
  intros [= <-]. auto.
Qed.

Lemma perform_Throw (a : Action) (effect : gmap string Node -> gmap string Node)
      (w w' : World) (e : Error) :
  perform fault a effect w = (w', Throw e) ->
  fault w a = Some e /\ fs w' = fs w /\ journal w' = (journal w ++ [a])%list.
Proof.
  unfold perform. destruct (fault w a); [|discriminate].
  intros [= <- <-]. auto.
Qed.

Lemma tmpFile_Ok (w w1 : World) (t : string) :
  tmpFile fault tmpName w = (w1, Ok t) ->
  t = tmpName w
  /\ fs w1 = <[t := File EmptyString]> (fs w)
  /\ journal w1 = (journal w ++ [TmpFile t])%list.
Proof.
  unfold tmpFile, andThen, pure.
  destruct (perform fault _ _ w) as [w' [[]|e]] eqn:Hp; [|discriminate].
  intros [= <- <-]. apply perform_Ok in Hp as [_ [Hfs Hj]]. auto.
Qed.

(** C2.  The archive is not in place, a temporary file is made (at
    another path) and the download into it completes, and the digest
    of what was downloaded is not the one written after ['#'] in the
    registration's source: fetch throws "Invalid checksum for
    name@version", nothing has been asked but the temporary file and
    the download (no move), the archive path is still absent and the
    download is still in the temporary file. *)
Theorem fetch_checksum_mismatch
        (config : Config) (registration : Registration)
        (w w1 w2 : World) (unverifiedFile : string) :
  fs w !! resolveLocalPackage config registration = None ->
  tmpFile fault tmpName w = (w1, Ok unverifiedFile) ->
  unverifiedFile <> resolveLocalPackage config registration ->
  download fault served (resolveRemotePackage config registration) unverifiedFile w1
  = (w2, Ok tt) ->
  Some (getDigest (served (resolveRemotePackage config registration)))
  <> embeddedChecksum (reg_source registration) ->
  fetch fault served getDigest tmpName unpack config registration w
  = (w2, Throw (JsError ("Invalid checksum for " +:+ reg_name registration
                         +:+ "@" +:+ reg_version registration)))
  /\ fs w2 !! resolveLocalPackage config registration = None
  /\ fs w2 !! unverifiedFile
     = Some (File (served (resolveRemotePackage config registration)))
  /\ journal w2
     = (journal w ++ [TmpFile unverifiedFile;
                      Download (resolveRemotePackage config registration)
                               unverifiedFile])%list.
Proof.
  intros Habsent Htmp Hdistinct Hdownload Hdigest.
  pose proof (tmpFile_Ok _ _ _ Htmp) as [_ [Hfs1 Hj1]].
  pose proof (perform_Ok _ _ _ _ _ Hdownload) as [_ [Hfs2 Hj2]].
  assert (Hfile : fs w2 !! unverifiedFile
                  = Some (File (served (resolveRemotePackage config registration)))).
  { rewrite Hfs2. apply lookup_insert_eq. }
  split; [|split; [|split]].
  - unfold fetch, andThen, pathExists. rewrite Habsent.
    rewrite bool_decide_eq_false_2 by (intros [? [=]]). simpl.
    rewrite Htmp, Hdownload. unfold getChecksum. rewrite Hfile.
    rewrite bool_decide_eq_false_2 by exact Hdigest. reflexivity.
  - rewrite Hfs2, Hfs1. rewrite !lookup_insert_ne by exact Hdistinct. exact Habsent.
  - exact Hfile.
  - rewrite Hj2, Hj1, <- app_assoc. reflexivity.
Qed.
End Fetch.

(** Scenario 4: digest [beefdead] against [#deadbeef]. *)
Lemma fetch_checksum_mismatch_witness :
  exists w',
    fetch noFault servedArchive digestBeefdead tmpUnverified unpackNothing
          sampleConfig registrationTampered emptyWorld
    = (w', Throw (JsError "Invalid checksum for a@1.0.0"))
    /\ fs w' !! "cache/packages/a-1.0.0.block" = None.
Proof.
  eexists.
  refine (let H := fetch_checksum_mismatch
                     noFault servedArchive digestBeefdead tmpUnverified unpackNothing
                     sampleConfig registrationTampered emptyWorld _ _ "tmp/unverified"
                     _ eq_refl _ eq_refl _ in
          conj (proj1 H) (proj1 (proj2 H))).
  - reflexivity.
  - discriminate.
  - discriminate.
Defined.

(** ** Updating the registry mirror *)

Section Update.
Variable fault : World -> Action -> option Error.
Variable cloneTarget : string -> string -> string.
Variable dirname : string -> string.
Variable basename : string -> string.

Lemma pathExists_present (path : string) (w : World) :
  is_Some (fs w !! path) -> pathExists path w = (w, Ok true).
Proof.
  intros H. unfold pathExists. rewrite bool_decide_eq_true_2 by exact H. reflexivity.
Qed.

Lemma pathExists_absent (path : string) (w : World) :
  fs w !! path = None -> pathExists path w = (w, Ok false).
Proof.
  intros H. unfold pathExists. rewrite H.
  rewrite bool_decide_eq_false_2 by (intros [? [=]]). reflexivity.
Qed.



End Update.


(** ** Reading the lockfile *)

Section ReadLockfile.
Variable fault : World -> Action -> option Error.
Variable join : list PathPart -> Result string.
Variable parseToml : string -> Result TomlDocument.

(** C9.  readLockfile never throws: it returns null when the lockfile
    is not there, when its path cannot be made, when reading it fails
    and when fromToml throws on what was read, and the lockfile when
    all of this succeeds. *)
Theorem readLockfile_never_throws (dir : string) (w : World) :
  (exists w' result, readLockfile fault join parseToml dir w = (w', Ok result))
  /\ (forall e,
         join [PStr dir; PStr "vba-block.lock"] = Throw e ->
         readLockfile fault join parseToml dir w = (w, Ok None))
  /\ (forall file,
         join [PStr dir; PStr "vba-block.lock"] = Ok file ->
         (fs w !! file = None ->
          readLockfile fault join parseToml dir w = (w, Ok None))
         /\ (forall w' e,
                is_Some (fs w !! file) ->
                readFile fault file w = (w', Throw e) ->
                readLockfile fault join parseToml dir w = (w', Ok None))
         /\ (forall w' toml e,
                is_Some (fs w !! file) ->
                readFile fault file w = (w', Ok toml) ->
                fromToml parseToml toml = Throw e ->
                readLockfile fault join parseToml dir w = (w', Ok None))
         /\ (forall w' toml lockfile,
                is_Some (fs w !! file) ->
                readFile fault file w = (w', Ok toml) ->
                fromToml parseToml toml = Ok lockfile ->
                readLockfile fault join parseToml dir w = (w', Ok (Some lockfile)))).
Proof.
  unfold readLockfile, tryCatch, andThen, lift, pure.
  destruct (join [PStr dir; PStr "vba-block.lock"]) as [file|e0] eqn:Hjoin.
  - unfold pathExists.
    destruct (fs w !! file) as [node|] eqn:Hfile.
    + rewrite bool_decide_eq_true_2 by eauto. simpl.
      destruct (readFile fault file w) as [w1 [toml|e1]] eqn:Hread.
      * destruct (fromToml parseToml toml) as [lockfile|e2] eqn:Hfrom.
        -- split; [eauto|]. split; [discriminate|].
           intros file' [= <-]. rewrite Hfile.
           split; [discriminate|]. split; [intros w' e _; rewrite Hread; discriminate|].
           split; intros w' toml' x _; rewrite Hread; intros [= <- <-];
             rewrite Hfrom; [discriminate | intros [= <-]; reflexivity].
        -- split; [eauto|]. split; [discriminate|].
           intros file' [= <-]. rewrite Hfile.
           split; [discriminate|]. split; [intros w' e _; rewrite Hread; discriminate|].
           split; intros w' toml' x _; rewrite Hread; intros [= <- <-];
             rewrite Hfrom; [reflexivity | discriminate].
      * split; [eauto|]. split; [discriminate|].
        intros file' [= <-]. rewrite Hfile.
        split; [discriminate|].
        split; [intros w' e _; rewrite Hread; intros [= <- _]; reflexivity|].
        split; intros w' toml' x _; rewrite Hread; discriminate.
    + rewrite bool_decide_eq_false_2 by (intros [? [=]]). simpl.
      split; [eauto|]. split; [discriminate|].
      intros file' [= <-]. rewrite Hfile.
      split; [reflexivity|].
      split; [intros w' e [? [=]]|].
      split; intros w' toml x [? [=]].
  - split; [eauto|]. split; [reflexivity|]. discriminate.
Qed.
End ReadLockfile.

(** A corrupt lockfile reads as no lockfile. *)
Lemma readLockfile_never_throws_witness :
  exists w',
    readLockfile noFault joinLenient sampleParse "project" corruptWorld = (w', Ok None).
Proof.
  eexists.
  destruct (readLockfile_never_throws noFault joinLenient sampleParse
                                      "project" corruptWorld) as [_ [_ Hfile]].
  destruct (Hfile "project/vba-block.lock" eq_refl) as [_ [_ [Hcorrupt _]]].
  apply (Hcorrupt _ "[[[" (SyntaxError "unexpected text")).
  - eexists. reflexivity.
  - reflexivity.
  - reflexivity.
Defined.

(* ===================================================================== *)
(** * Part III: further properties of the code                            *)
(* ===================================================================== *)

(** ** Writing the lockfile text *)

Lemma mapR_forallb {A B} (f : A -> Result B) (p : A -> bool) (err : Error)
      (xs : list A) :
  (forall x, p x = true -> exists y, f x = Ok y) ->
  (forall x, p x = false -> f x = Throw err) ->
  (forallb p xs = true -> exists ys, mapR f xs = Ok ys)
  /\ (forallb p xs = false -> mapR f xs = Throw err).
Proof.
  intros Hgood Hbad. induction xs as [|x rest [IHt IHf]]; simpl.
  - split; [eauto | discriminate].
  - destruct (p x) eqn:Hp; simpl.
    + destruct (Hgood x Hp) as [y ->]. simpl. split.
      * intros Hrest. destruct (IHt Hrest) as [ys ->]. simpl. eauto.
      * intros Hrest. rewrite (IHf Hrest). reflexivity.
    + rewrite (Hbad x Hp). simpl. split; [discriminate | reflexivity].
Qed.

Section Writing.
Variable accepts : Dependency -> string -> bool.
Variable graph : DependencyGraph.

Lemma toDependencyId_cases (d : Dependency) :
  (resolvable accepts graph d = true -> exists id, toDependencyId accepts d graph = Ok id)
  /\ (resolvable accepts graph d = false ->
      toDependencyId accepts d graph = Throw noPackageFound).
Proof.
  unfold resolvable, toDependencyId.
  destruct (getRegistration accepts graph d); split; try discriminate; eauto.
Qed.

Lemma toDependencyIds_cases (ds : list Dependency) :
  (forallb (resolvable accepts graph) ds = true ->
   exists ids, mapR (fun d => toDependencyId accepts d graph) ds = Ok ids)
  /\ (forallb (resolvable accepts graph) ds = false ->
      mapR (fun d => toDependencyId accepts d graph) ds = Throw noPackageFound).
Proof.
  apply mapR_forallb; intros d Hd; apply toDependencyId_cases; exact Hd.
Qed.

Lemma prepareManifest_cases (s : Snapshot) :
  (forallb (resolvable accepts graph) (snap_dependencies s) = true ->
   exists value, prepareManifest accepts s graph = Ok value)
  /\ (forallb (resolvable accepts graph) (snap_dependencies s) = false ->
      prepareManifest accepts s graph = Throw noPackageFound).
Proof.
  unfold prepareManifest.
  destruct (toDependencyIds_cases (snap_dependencies s)) as [Ht Hf]. split.
  - intros H. destruct (Ht H) as [ids ->]. simpl. eauto.
  - intros H. rewrite (Hf H). reflexivity.
Qed.

Lemma preparePackage_cases (r : Registration) :
  (forallb (resolvable accepts graph) (reg_dependencies r) = true ->
   exists value, preparePackage accepts graph r = Ok value)
  /\ (forallb (resolvable accepts graph) (reg_dependencies r) = false ->
      preparePackage accepts graph r = Throw noPackageFound).
Proof.
  unfold preparePackage.
  destruct (toDependencyIds_cases (reg_dependencies r)) as [Ht Hf]. split.
  - intros H. destruct (Ht H) as [ids ->]. simpl. eauto.
  - intros H. rewrite (Hf H). reflexivity.
Qed.
End Writing.

Lemma prepareDocument_cases (accepts : Dependency -> string -> bool) (lockfile : Lockfile) :
  (completeGraph accepts lockfile = true ->
   exists document, prepareDocument accepts lockfile = Ok document)
  /\ (completeGraph accepts lockfile = false ->
      prepareDocument accepts lockfile = Throw noPackageFound).
Proof.
  unfold completeGraph, prepareDocument.
  set (graph := packages lockfile).
  destruct (prepareManifest_cases accepts graph (ws_root (workspace lockfile)))
    as [Hrt Hrf].
  destruct (mapR_forallb (fun member => prepareManifest accepts member graph)
              (fun member => forallb (resolvable accepts graph) (snap_dependencies member))
              noPackageFound (ws_members (workspace lockfile))) as [Hmt Hmf];
    [intros m; apply prepareManifest_cases | intros m; apply prepareManifest_cases|].
  destruct (mapR_forallb (preparePackage accepts graph)
              (fun r => forallb (resolvable accepts graph) (reg_dependencies r))
              noPackageFound graph) as [Hpt Hpf];
    [intros r; apply preparePackage_cases | intros r; apply preparePackage_cases|].
  destruct (forallb (resolvable accepts graph)
                    (snap_dependencies (ws_root (workspace lockfile)))) eqn:Hr; simpl.
  - destruct (Hrt eq_refl) as [root ->]. simpl.
    destruct (forallb _ (ws_members (workspace lockfile))) eqn:Hm; simpl.
    + destruct (Hmt eq_refl) as [members ->]. simpl.
      destruct (forallb _ graph) eqn:Hp; simpl.
      * destruct (Hpt eq_refl) as [pkgs ->]. simpl. split; [eauto | discriminate].
      * rewrite (Hpf eq_refl). simpl. split; [discriminate | reflexivity].
    + rewrite (Hmf eq_refl). simpl. split; [discriminate | reflexivity].
  - rewrite (Hrf eq_refl). simpl. split; [discriminate | reflexivity].
Qed.

(** X1.  toToml returns a text exactly when the graph is complete; on
    an incomplete graph it throws "No package found for dependency",
    and it throws nothing else. *)
Theorem toToml_succeeds_iff_complete
        (convertToToml : TomlDocument -> string)
        (accepts : Dependency -> string -> bool) (lockfile : Lockfile) :
  (completeGraph accepts lockfile = true <->
   exists toml, toToml convertToToml accepts lockfile = Ok toml)
  /\ (completeGraph accepts lockfile = false <->
      toToml convertToToml accepts lockfile = Throw noPackageFound)
  /\ (forall e, toToml convertToToml accepts lockfile = Throw e -> e = noPackageFound).
Proof.
  unfold toToml. destruct (prepareDocument_cases accepts lockfile) as [Ht Hf].
  destruct (completeGraph accepts lockfile).
  - destruct (Ht eq_refl) as [document ->]. simpl.
    split; [split; eauto|]. split; [split; discriminate | discriminate].
  - rewrite (Hf eq_refl). simpl.
    split; [split; [discriminate | intros [? [=]]]|].
    split; [split; reflexivity|]. intros e [= <-]. reflexivity.
Qed.

Lemma beforeChar_cut (sep : ascii) (a rest : string) :
  beforeChar sep (a +:+ String sep rest) = beforeChar sep a.
Proof.
  induction a as [|c a IH]; simpl.
  - rewrite Ascii.eqb_refl. reflexivity.
  - destruct (Ascii.eqb c sep); [reflexivity | rewrite IH; reflexivity].
Qed.

Lemma beforeChar_free (sep : ascii) (s : string) :
  hasChar sep s = false -> beforeChar sep s = s.
Proof.
  induction s as [|c s IH]; simpl; [reflexivity|].
  intros H. apply orb_false_iff in H as [Hc Hs]. rewrite Hc, (IH Hs). reflexivity.
Qed.

(** X2.  The id toDependencyId writes is "name version source" of the
    one registration that resolves the dependency, and getDependency
    reads from it the dependency's name up to its first space: the name
    itself when the name holds no space. *)
Theorem toDependencyId_read_back
        (accepts : Dependency -> string -> bool)
        (d : Dependency) (graph : DependencyGraph) (id : string) :
  toDependencyId accepts d graph = Ok id ->
  (exists r, getRegistration accepts graph d = Some r
             /\ id = dep_name d +:+ " " +:+ reg_version r +:+ " " +:+ reg_source r)
  /\ beforeChar space id = beforeChar space (dep_name d)
  /\ (spaceFree (dep_name d) = true -> beforeChar space id = dep_name d).
Proof.
  unfold toDependencyId.
  destruct (getRegistration accepts graph d) as [r|]; [|discriminate].
  intros [= <-]. split; [eauto|].
  assert (Hcut : beforeChar space
                   (dep_name d +:+ " " +:+ reg_version r +:+ " " +:+ reg_source r)
                 = beforeChar space (dep_name d))
    by apply (beforeChar_cut space (dep_name d)
                             (reg_version r +:+ " " +:+ reg_source r)).
  split; [exact Hcut|].
  intros Hfree. rewrite Hcut. apply beforeChar_free.
  apply negb_true_iff. exact Hfree.
Qed.

(** A dependency on a package whose name holds a space reads back as
    the first word of the name. *)
Lemma toDependencyId_read_back_witness :
  exists id,
    toDependencyId acceptsExact dependencySpaced [registrationSpaced] = Ok id
    /\ beforeChar space id = "my".
Proof.
  eexists. split; [reflexivity|].
  exact (proj1 (proj2 (toDependencyId_read_back
                         acceptsExact dependencySpaced [registrationSpaced]
                         _ eq_refl))).
Defined.

(** ** Loading a lockfile *)

Lemma truthy_Some (field : option string) (s : string) :
  truthy field = Some s -> field = Some s /\ nonEmpty s = true.
Proof.
  destruct field as [[|c rest]|]; simpl; try discriminate.
  intros [= <-]. split; reflexivity.
Qed.

Lemma loadPackages_Throw (values : list TomlPackage) (m : gmap string Dependency)
      (e : Error) :
  loadPackages values m = Throw e ->
  e = AssertionError "Invalid package in lockfile"
  /\ exists value, value ∈ values /\ validPackage value = false.
Proof.
  revert m. induction values as [|v rest IH]; simpl; intros m; [discriminate|].
  destruct (validPackage v) eqn:Hvalid.
  - unfold validPackage in Hvalid.
    destruct (truthy (tp_name v)) as [n|]; [|discriminate].
    destruct (truthy (tp_version v)) as [ver|]; [|discriminate].
    destruct (truthy (tp_source v)) as [src|]; [|discriminate].
    destruct (tp_dependencies v) as [ids|]; [|discriminate].
    destruct (loadPackages rest _) as [[sks m']|e'] eqn:Hrest; simpl; [discriminate|].
    intros [= <-]. destruct (IH _ Hrest) as [-> [v' [Hin Hv']]].
    split; [reflexivity|]. exists v'.
    split; [apply elem_of_cons; right; exact Hin | exact Hv'].
  - intros Hthrow. split.
    + unfold validPackage in Hvalid.
      destruct (truthy (tp_name v)) as [n|]; [|congruence].
      destruct (truthy (tp_version v)) as [ver|]; [|congruence].
      destruct (truthy (tp_source v)) as [src|]; [|congruence].
      destruct (tp_dependencies v) as [ids|]; [discriminate | congruence].
    + exists v. split; [apply elem_of_cons; left; reflexivity | exact Hvalid].
Qed.

Lemma loadPackages_invalid (values : list TomlPackage) (m : gmap string Dependency) :
  forallb validPackage values = false ->
  loadPackages values m = Throw (AssertionError "Invalid package in lockfile").
Proof.
  revert m. induction values as [|v rest IH]; simpl; intros m; [discriminate|].
  unfold validPackage at 1.
  destruct (truthy (tp_name v)) as [n|]; [|reflexivity].
  destruct (truthy (tp_version v)) as [ver|]; [|reflexivity].
  destruct (truthy (tp_source v)) as [src|]; [|reflexivity].
  destruct (tp_dependencies v) as [ids|]; [|reflexivity].
  simpl. intros Hrest. rewrite (IH _ Hrest). reflexivity.
Qed.

(** What pass 1 makes of each package table. *)
Lemma loadPackages_skeletons (values : list TomlPackage) (m m' : gmap string Dependency)
      (sks : list (RegistrationOf string)) :
  loadPackages values m = Ok (sks, m') ->
  Forall2 (fun value sk =>
             tp_name value = Some (reg_name sk)
             /\ tp_version value = Some (reg_version sk)
             /\ tp_source value = Some (reg_source sk)
             /\ tp_dependencies value = Some (reg_dependencies sk)
             /\ reg_id sk = Some (getRegistrationId (reg_name sk) (reg_version sk))
             /\ reg_features sk = None
             /\ nonEmpty (reg_name sk) = true
             /\ nonEmpty (reg_version sk) = true
             /\ nonEmpty (reg_source sk) = true)
          values sks.
Proof.
  revert m sks. induction values as [|v rest IH]; simpl; intros m sks.
  - intros [= <- _]. constructor.
  - destruct (truthy (tp_name v)) as [n|] eqn:Hn; [|discriminate].
    destruct (truthy (tp_version v)) as [ver|] eqn:Hv; [|discriminate].
    destruct (truthy (tp_source v)) as [src|] eqn:Hs; [|discriminate].
    destruct (tp_dependencies v) as [ids|] eqn:Hd; [|discriminate].
    destruct (loadPackages rest _) as [[sks' m'']|e] eqn:Hrest; simpl; [|discriminate].
    intros [= <- <-].
    apply truthy_Some in Hn as [Hn Hn'], Hv as [Hv Hv'], Hs as [Hs Hs'].
    constructor; [simpl; repeat split; (assumption || reflexivity) | eapply IH; exact Hrest].
Qed.

(** X3.  On a parsed document of the lockfile's types (packages and
    members, where present, arrays of tables; name, version and source
    strings; every entry of a dependencies array a string: what
    [TomlDocument] holds) fromToml throws one of four exceptions and no
    other: the missing [root] table, an invalid package table, an
    invalid root or member table, or a dependency id of the document
    whose name is no package. *)
Theorem fromParsed_exceptions (parsed : TomlDocument) (e : Error) :
  fromParsed parsed = Throw e ->
  (doc_root parsed = None
   /\ e = AssertionError "vba-block.lock is missing [root] field")
  \/ (e = AssertionError "Invalid package in lockfile"
      /\ exists value, value ∈ orEmpty (doc_packages parsed)
                       /\ validPackage value = false)
  \/ e = AssertionError "Invalid manifest in lockfile"
  \/ exists id, id ∈ documentIds parsed /\ e = packageNotFound id.
Proof.
  unfold fromParsed.
  destruct (doc_root parsed) as [parsedRoot|] eqn:Hroot;
    [|intros [= <-]; left; split; reflexivity].
  destruct (loadPackages (orEmpty (doc_packages parsed)) ∅) as [[sks byName]|e0] eqn:Hload;
    simpl.
  - pose proof (loadPackages_ids _ _ _ _ Hload) as Hids.
    destruct (mapR (hydrate byName) sks) as [pkgs|e1] eqn:Hpkgs; simpl.
    + destruct (toManifest parsedRoot byName) as [root|e2] eqn:Hr; simpl.
      * destruct (mapR _ (orEmpty (doc_members parsed))) as [members|e3] eqn:Hm; simpl;
          [discriminate|].
        intros [= <-]. apply mapR_Throw in Hm as [v [Hv Hthrow]].
        apply toManifest_Throw in Hthrow as [->|[id [Hin [_ ->]]]]; [tauto|].
        right. right. right. exists id. split; [|reflexivity].
        apply (documentIds_cases parsed parsedRoot id Hroot). right. right. eauto.
      * intros [= <-].
        apply toManifest_Throw in Hr as [->|[id [Hin [_ ->]]]]; [tauto|].
        right. right. right. exists id. split; [|reflexivity].
        apply (documentIds_cases parsed parsedRoot id Hroot). right. left. exact Hin.
    + intros [= <-]. apply mapR_Throw in Hpkgs as [sk [Hsk Hthrow]].
      apply hydrate_Throw in Hthrow as [id [Hin [_ ->]]].
      right. right. right. exists id. split; [|reflexivity].
      apply (documentIds_cases parsed parsedRoot id Hroot). left.
      apply list_elem_of_In in Hsk.
      apply (in_map reg_dependencies) in Hsk. rewrite Hids in Hsk.
      apply in_map_iff in Hsk as [v [Hv Hvin]].
      exists v. split; [apply list_elem_of_In; exact Hvin | rewrite Hv; exact Hin].
  - intros [= <-]. apply loadPackages_Throw in Hload as [-> Hbad]. right. left.
    split; [reflexivity | exact Hbad].
Qed.

(** A root that depends on a package the lockfile does not list. *)
Lemma fromParsed_exceptions_witness :
  exists id,
    id ∈ ["b 2.0.0 registry+x#c2"]
    /\ fromParsed {| doc_root := Some {| tm_name := Some "app"; tm_version := Some "1.0.0";
                                         tm_dependencies := Some ["b 2.0.0 registry+x#c2"] |};
                     doc_members := None; doc_packages := None |}
       = Throw (packageNotFound id).
Proof.
  destruct (fromParsed_exceptions
              {| doc_root := Some {| tm_name := Some "app"; tm_version := Some "1.0.0";
                                     tm_dependencies := Some ["b 2.0.0 registry+x#c2"] |};
                 doc_members := None; doc_packages := None |}
              (packageNotFound "b 2.0.0 registry+x#c2") eq_refl)
    as [[Hroot _] | [[Hpkg _] | [Hmanifest | [id [Hin Hid]]]]].
  - discriminate Hroot.
  - discriminate Hpkg.
  - discriminate Hmanifest.
  - exists id. split; [exact Hin|]. rewrite <- Hid. reflexivity.
Defined.

(** X4.  The checks of fromToml come in a fixed order: without a
    [root] table nothing else is looked at, and with one an invalid
    package table is reported before any dependency id is resolved and
    before the root and member tables are checked. *)
Theorem fromParsed_checks_in_order (parsed : TomlDocument) :
  (doc_root parsed = None ->
   fromParsed parsed = Throw (AssertionError "vba-block.lock is missing [root] field"))
  /\ (doc_root parsed <> None ->
      forallb validPackage (orEmpty (doc_packages parsed)) = false ->
      fromParsed parsed = Throw (AssertionError "Invalid package in lockfile")).
Proof.
  unfold fromParsed. destruct (doc_root parsed) as [parsedRoot|]; split.
  - discriminate.
  - intros _ Hbad. rewrite (loadPackages_invalid _ _ Hbad). reflexivity.
  - reflexivity.
  - intros Hroot. contradiction.
Qed.

Lemma hydratedBy_source (byName : gmap string Dependency) (ids : list string)
      (deps : list Dependency) (d : Dependency) :
  hydratedBy byName ids deps -> d ∈ deps ->
  exists id, id ∈ ids /\ byName !! beforeChar space id = Some d.
Proof.
  induction 1 as [|i d' ids' deps' Hi _ IH]; intros Hin; [inversion Hin|].
  apply elem_of_cons in Hin as [->|Hin].
  - exists i. split; [apply elem_of_cons; left; reflexivity | exact Hi].
  - destruct (IH Hin) as [id [Hid Hd]]. exists id.
    split; [apply elem_of_cons; right; exact Hid | exact Hd].
Qed.

(** X5.  A lockfile that fromToml returns has no dangling dependency:
    every dependency of its root, of its members and of its packages
    carries the name, version and source of a package of the lockfile
    (the last one listed under that name).  Its packages are the
    package tables in order, with id "name@version" and non-empty
    name, version and source; its root has the root table's name and
    version. *)
Theorem fromParsed_no_dangling_dependency (parsed : TomlDocument) (lockfile : Lockfile) :
  fromParsed parsed = Ok lockfile ->
  (forall d, d ∈ lockfileDependencies lockfile ->
             exists r, r ∈ packages lockfile /\ standsFor d r
                       /\ dep_features d = [] /\ dep_optional d = false
                       /\ dep_default_features d = true)
  /\ Forall2 (fun value r =>
                tp_name value = Some (reg_name r)
                /\ tp_version value = Some (reg_version r)
                /\ tp_source value = Some (reg_source r)
                /\ reg_id r = Some (reg_name r +:+ "@" +:+ reg_version r)
                /\ nonEmpty (reg_name r) = true
                /\ nonEmpty (reg_version r) = true
                /\ nonEmpty (reg_source r) = true)
             (orEmpty (doc_packages parsed)) (packages lockfile)
  /\ (exists parsedRoot,
         doc_root parsed = Some parsedRoot
         /\ tm_name parsedRoot = Some (snap_name (ws_root (workspace lockfile)))
         /\ tm_version parsedRoot = Some (snap_version (ws_root (workspace lockfile))))
  /\ length (ws_members (workspace lockfile)) = length (orEmpty (doc_members parsed)).
Proof.
  unfold fromParsed.
  destruct (doc_root parsed) as [parsedRoot|] eqn:Hroot; [|discriminate].
  destruct (loadPackages (orEmpty (doc_packages parsed)) ∅) as [[sks byName]|e0] eqn:Hload;
    simpl; [|discriminate].
  destruct (mapR (hydrate byName) sks) as [pkgs|e1] eqn:Hpkgs; simpl; [|discriminate].
  destruct (toManifest parsedRoot byName) as [root|e2] eqn:Hr; simpl; [|discriminate].
  destruct (mapR _ (orEmpty (doc_members parsed))) as [members|e3] eqn:Hm; simpl;
    [|discriminate].
  intros [= <-]. simpl.
  pose proof (loadPackages_skeletons _ _ _ _ Hload) as Hsks.
  apply mapR_Ok in Hpkgs. apply mapR_Ok in Hm.
  apply toManifest_Ok in Hr as [Hrn [Hrv Hrd]].
  (* each dependency the map hands out stands for a package *)
  assert (Hstands : forall n d, byName !! n = Some d ->
            exists r, r ∈ pkgs /\ standsFor d r
                      /\ dep_features d = [] /\ dep_optional d = false
                      /\ dep_default_features d = true).
  { intros n d Hd.
    rewrite (loadPackages_byName _ _ _ _ n Hload) in Hd.
    destruct (lastNamed reg_name sks n) as [sk|] eqn:Hsk;
      [|rewrite lookup_empty in Hd; discriminate].
    injection Hd as <-. apply lastNamed_Some in Hsk as [Hin _].
    destruct (Forall2_elem_of_l _ _ _ _ Hpkgs Hin) as [r [Hr Hh]].
    apply hydrate_Ok in Hh as [_ [Hn [Hv [Hs _]]]].
    exists r. split; [exact Hr|]. unfold standsFor. simpl.
    rewrite Hn, Hv, Hs. auto. }
  split; [|split; [|split]].
  - intros d Hd. unfold lockfileDependencies in Hd. simpl in Hd.
    apply elem_of_app in Hd as [Hd|Hd]; [|apply elem_of_app in Hd as [Hd|Hd]].
    + destruct (hydratedBy_source _ _ _ _ Hrd Hd) as [id [_ Hid]]. eapply Hstands, Hid.
    + apply elem_of_concat_map in Hd as [s [Hs Hd]].
      assert (Hflip : Forall2 (fun s value => toManifest value byName = Ok s)
                              members (orEmpty (doc_members parsed)))
        by (apply Forall2_flip; exact Hm).
      destruct (Forall2_elem_of_l _ _ _ _ Hflip Hs) as [v [_ Hv]].
      apply toManifest_Ok in Hv as [_ [_ Hh]].
      destruct (hydratedBy_source _ _ _ _ Hh Hd) as [id [_ Hid]]. eapply Hstands, Hid.
    + apply elem_of_concat_map in Hd as [r [Hr Hd]].
      assert (Hflip : Forall2 (fun r sk => hydrate byName sk = Ok r) pkgs sks)
        by (apply Forall2_flip; exact Hpkgs).
      destruct (Forall2_elem_of_l _ _ _ _ Hflip Hr) as [sk [_ Hsk]].
      apply hydrate_Ok in Hsk as [_ [_ [_ [_ Hh]]]].
      destruct (hydratedBy_source _ _ _ _ Hh Hd) as [id [_ Hid]]. eapply Hstands, Hid.
  - clear Hstands Hload. revert pkgs Hpkgs.
    induction Hsks as [|v sk vs sks' Hv _ IH]; intros pkgs Hpkgs;
      inversion Hpkgs as [|? r ? pkgs' Hh Hrest]; subst; constructor.
    + apply hydrate_Ok in Hh as [Hid [Hn [Hver [Hs _]]]].
      destruct Hv as [Hvn [Hvv [Hvs [_ [Hvid [_ [Hne [Hve Hse]]]]]]]].
      rewrite Hid, Hn, Hver, Hs. repeat split; assumption.
    + apply IH. exact Hrest.
  - exists parsedRoot. auto.
  - symmetry. eapply Forall2_length. exact Hm.
Qed.

(** Scenario 2: the dependency of the loaded root stands for the package "a". *)
Lemma fromParsed_no_dangling_dependency_witness :
  exists lockfile r,
    fromParsed sampleDocument = Ok lockfile
    /\ r ∈ packages lockfile
    /\ standsFor (toDependency sampleSkeleton) r.
Proof.
  destruct (fromParsed_no_dangling_dependency sampleDocument _ eq_refl) as [Hdeps _].
  destruct (Hdeps (toDependency sampleSkeleton)) as [r [Hr [Hstands _]]].
  - apply elem_of_cons. left. reflexivity.
  - eexists. exists r. split; [reflexivity|]. split; [exact Hr | exact Hstands].
Defined.

(** ** What follows the name in an id *)

Lemma sameNameInId_getDependency (byName : gmap string Dependency) (id id' : string)
      (d : Dependency) :
  sameNameInId id id' -> getDependency id byName = Ok d -> getDependency id' byName = Ok d.
Proof.
  unfold sameNameInId. intros Hsame H. apply getDependency_Ok in H.
  apply getDependency_found. rewrite <- Hsame. exact H.
Qed.

Lemma mapR_related {A B} (f : A -> Result B) (R : A -> A -> Prop)
      (xs xs' : list A) (ys : list B) :
  (forall x x' y, R x x' -> f x = Ok y -> f x' = Ok y) ->
  Forall2 R xs xs' -> mapR f xs = Ok ys -> mapR f xs' = Ok ys.
Proof.
  intros Hf HF. revert ys. induction HF as [|x x' l l' HR _ IH]; intros ys; simpl;
    [tauto|].
  destruct (f x) as [y|] eqn:Hx; simpl; [|discriminate].
  destruct (mapR f l) as [ys'|] eqn:Hl; simpl; [|discriminate].
  intros [= <-]. rewrite (Hf _ _ _ HR Hx), (IH _ eq_refl). reflexivity.
Qed.

Lemma toManifest_upToIds (byName : gmap string Dependency) (a b : TomlManifest)
      (s : Snapshot) :
  sameManifestUpToIds a b -> toManifest a byName = Ok s -> toManifest b byName = Ok s.
Proof.
  intros [Hn [Hv Hd]]. unfold toManifest. rewrite <- Hn, <- Hv.
  destruct (truthy (tm_name a)); [|discriminate].
  destruct (truthy (tm_version a)); [|discriminate].
  unfold sameIdsOption in Hd.
  destruct (tm_dependencies a) as [ids|], (tm_dependencies b) as [ids'|];
    try contradiction; try discriminate.
  destruct (mapR _ ids) as [deps|] eqn:Hdeps; simpl; [|discriminate].
  rewrite (mapR_related (fun id => getDependency id byName) sameNameInId ids ids' deps
             (sameNameInId_getDependency byName) Hd Hdeps).
  tauto.
Qed.

Lemma loadPackages_upToIds (vs vs' : list TomlPackage) (m m' : gmap string Dependency)
      (sks : list (RegistrationOf string)) :
  Forall2 samePackageUpToIds vs vs' ->
  loadPackages vs m = Ok (sks, m') ->
  exists sks',
    loadPackages vs' m = Ok (sks', m')
    /\ Forall2 (fun sk sk' =>
                  reg_id sk = reg_id sk' /\ reg_name sk = reg_name sk'
                  /\ reg_version sk = reg_version sk' /\ reg_source sk = reg_source sk'
                  /\ reg_features sk = reg_features sk'
                  /\ Forall2 sameNameInId (reg_dependencies sk) (reg_dependencies sk'))
               sks sks'.
Proof.
  intros HF. revert m sks.
  induction HF as [|v v' l l' [Hn [Hv [Hs Hd]]] _ IH]; intros m sks; simpl.
  - intros [= <- <-]. exists []. split; [reflexivity | constructor].
  - rewrite <- Hn, <- Hv, <- Hs.
    destruct (truthy (tp_name v)) as [n|]; [|discriminate].
    destruct (truthy (tp_version v)) as [ver|]; [|discriminate].
    destruct (truthy (tp_source v)) as [src|]; [|discriminate].
    unfold sameIdsOption in Hd.
    destruct (tp_dependencies v) as [ids|], (tp_dependencies v') as [ids'|];
      try contradiction; try discriminate.
    destruct (loadPackages l _) as [[sks0 m0]|] eqn:Hl; simpl; [|discriminate].
    intros [= <- <-].
    destruct (IH _ _ Hl) as [sks' [Hl' HF']].
    change (toDependency {| reg_id := Some (getRegistrationId n ver); reg_name := n;
                            reg_version := ver; reg_source := src;
                            reg_dependencies := ids'; reg_features := None |})
      with (toDependency {| reg_id := Some (getRegistrationId n ver); reg_name := n;
                            reg_version := ver; reg_source := src;
                            reg_dependencies := ids; reg_features := None |}).
    rewrite Hl'. simpl. eexists. split; [reflexivity|].
    constructor; [simpl; repeat split; (reflexivity || exact Hd) | exact HF'].
Qed.

Lemma hydrate_upToIds (byName : gmap string Dependency) (sk sk' : RegistrationOf string)
      (r : Registration) :
  reg_id sk = reg_id sk' /\ reg_name sk = reg_name sk'
  /\ reg_version sk = reg_version sk' /\ reg_source sk = reg_source sk'
  /\ reg_features sk = reg_features sk'
  /\ Forall2 sameNameInId (reg_dependencies sk) (reg_dependencies sk') ->
  hydrate byName sk = Ok r -> hydrate byName sk' = Ok r.
Proof.
  intros [Hid [Hn [Hv [Hs [Hf Hd]]]]]. unfold hydrate.
  destruct (mapR _ (reg_dependencies sk)) as [deps|] eqn:Hdeps; simpl; [|discriminate].
  rewrite (mapR_related (fun id => getDependency id byName) sameNameInId _ _ deps
             (sameNameInId_getDependency byName) Hd Hdeps).
  simpl. rewrite <- Hid, <- Hn, <- Hv, <- Hs, <- Hf. tauto.
Qed.

(** X6.  What follows the name in a dependency id plays no part in
    loading: two parsed lockfiles that differ only after the first
    space of their dependency ids load to the same lockfile, so an
    edited version or source in an id goes unnoticed. *)
Theorem fromParsed_ignores_id_suffix (a b : TomlDocument) (lockfile : Lockfile) :
  sameDocumentUpToIds a b ->
  fromParsed a = Ok lockfile ->
  fromParsed b = Ok lockfile.
Proof.
  intros [Hroot [Hmembers Hpackages]]. unfold fromParsed.
  destruct (doc_root a) as [ra|], (doc_root b) as [rb|]; try contradiction;
    try discriminate.
  destruct (loadPackages (orEmpty (doc_packages a)) ∅) as [[sks byName]|] eqn:Hload;
    simpl; [|discriminate].
  destruct (loadPackages_upToIds _ _ _ _ _ Hpackages Hload) as [sks' [Hload' Hsks]].
  rewrite Hload'. simpl.
  destruct (mapR (hydrate byName) sks) as [pkgs|] eqn:Hpkgs; simpl; [|discriminate].
  assert (Hpkgs' : mapR (hydrate byName) sks' = Ok pkgs).
  { revert pkgs Hpkgs. clear Hload Hload'.
    induction Hsks as [|sk sk' l l' Hrel _ IH]; intros pkgs; simpl; [tauto|].
    destruct (hydrate byName sk) as [r|] eqn:Hsk; simpl; [|discriminate].
    destruct (mapR (hydrate byName) l) as [rs|] eqn:Hl; simpl; [|discriminate].
    intros [= <-]. rewrite (hydrate_upToIds _ _ _ _ Hrel Hsk), (IH _ eq_refl).
    reflexivity. }
  rewrite Hpkgs'. simpl.
  destruct (toManifest ra byName) as [root|] eqn:Hr; simpl; [|discriminate].
  rewrite (toManifest_upToIds _ _ _ _ Hroot Hr). simpl.
  destruct (mapR _ (orEmpty (doc_members a))) as [members|] eqn:Hm; simpl; [|discriminate].
  rewrite (mapR_related (fun member => toManifest member byName) sameManifestUpToIds
             _ _ members (toManifest_upToIds byName) Hmembers Hm).
  tauto.
Qed.

(** Scenario 2 with the version and source of the id edited by hand. *)
Lemma fromParsed_ignores_id_suffix_witness :
  exists lockfile,
    fromParsed sampleDocument = Ok lockfile
    /\ fromParsed
         {| doc_root := Some {| tm_name := Some "app"; tm_version := Some "1.0.0";
                                tm_dependencies := Some ["a 9.9.9 git+elsewhere"] |};
            doc_members := None;
            doc_packages := doc_packages sampleDocument |}
       = Ok lockfile.
Proof.
  eexists. split; [reflexivity|].
  apply (fromParsed_ignores_id_suffix sampleDocument).
  - split; [|split].
    + simpl. repeat split. simpl. constructor; [reflexivity | constructor].
    + constructor.
    + simpl. constructor; [|constructor]. repeat split. simpl. constructor.
  - reflexivity.
Defined.

(** ** Writing and reading back the lockfile file *)

Section LockfileFile.
Variable writeFault : World -> string -> string -> option (Error * gmap string Node).
Variable fault : World -> Action -> option Error.
Variable join : list PathPart -> Result string.
Variable parseToml : string -> Result TomlDocument.
Variable convertToToml : TomlDocument -> string.
Variable accepts : Dependency -> string -> bool.

(** X7.  writeLockfile makes the path and the whole text before it
    writes.  When [path.join] throws, or the graph is incomplete so
    that toToml throws "No package found for dependency", it fails with
    that exception and the world is as it was, whatever the write would
    have done.  The file system changes only in a run in which toToml
    returned the text, and when writeLockfile fulfils the file holds
    exactly that text. *)
Theorem writeLockfile_writes_only_complete_text
        (dir : string) (lockfile : Lockfile) (w w' : World) (r : Result unit) :
  writeLockfile writeFault join convertToToml accepts dir lockfile w = (w', r) ->
  (r = Ok tt ->
   exists file toml,
     join [PStr dir; PStr "vba-block.lock"] = Ok file
     /\ toToml convertToToml accepts lockfile = Ok toml
     /\ fs w' = <[file := File toml]> (fs w)
     /\ journal w' = journal w)
  /\ (forall e, join [PStr dir; PStr "vba-block.lock"] = Throw e ->
                r = Throw e /\ w' = w)
  /\ (forall file, join [PStr dir; PStr "vba-block.lock"] = Ok file ->
                   completeGraph accepts lockfile = false ->
                   r = Throw noPackageFound /\ w' = w)
  /\ (fs w' <> fs w ->
      completeGraph accepts lockfile = true
      /\ exists file toml,
          join [PStr dir; PStr "vba-block.lock"] = Ok file
          /\ toToml convertToToml accepts lockfile = Ok toml).
Proof.
  unfold writeLockfile, andThen, lift, writeFile.
  destruct (join [PStr dir; PStr "vba-block.lock"]) as [file|e0] eqn:Hjoin.
  - destruct (prepareDocument_cases accepts lockfile) as [Ht Hf].
    unfold toToml.
    destruct (completeGraph accepts lockfile).
    + destruct (Ht eq_refl) as [document ->]. simpl.
      destruct (writeFault w file (convertToToml document)) as [[e1 remains]|].
      * intros [= <- <-]. split; [discriminate|]. split; [discriminate|].
        split; [discriminate|]. intros _. split; [reflexivity|]. eauto.
      * intros [= <- <-]. split; [|split; [discriminate|split; [discriminate|]]].
        -- intros _. exists file, (convertToToml document). simpl. auto.
        -- intros _. split; [reflexivity|]. eauto.
    + rewrite (Hf eq_refl). simpl. intros [= <- <-].
      split; [discriminate|]. split; [discriminate|].
      split; [intros file' _ _; split; reflexivity|].
      intros Hchanged. contradiction Hchanged. reflexivity.
  - intros [= <- <-]. split; [discriminate|].
    split; [intros e [= <-]; split; reflexivity|].
    split; [discriminate|]. intros Hchanged. contradiction Hchanged. reflexivity.
Qed.

(** X8.  Reading the directory just written gives what fromToml makes
    of the text toToml wrote: that lockfile, or null when fromToml
    throws on it. *)
Theorem readLockfile_after_writeLockfile
        (dir file : string) (lockfile : Lockfile) (w w1 : World) :
  join [PStr dir; PStr "vba-block.lock"] = Ok file ->
  writeLockfile writeFault join convertToToml accepts dir lockfile w = (w1, Ok tt) ->
  fault w1 (ReadFile file) = None ->
  exists toml,
    toToml convertToToml accepts lockfile = Ok toml
    /\ fs w1 !! file = Some (File toml)
    /\ readLockfile fault join parseToml dir w1
       = (record (ReadFile file) w1,
          Ok (match fromToml parseToml toml with
              | Ok lockfile' => Some lockfile'
              | Throw _ => None
              end)).
Proof.
  intros Hjoin Hwrite Hread.
  unfold writeLockfile, andThen, lift, writeFile in Hwrite. rewrite Hjoin in Hwrite.
  destruct (toToml convertToToml accepts lockfile) as [toml|] eqn:Htoml; [|discriminate].
  destruct (writeFault w file toml) as [[e remains]|]; [discriminate|].
  injection Hwrite as <-.
  exists toml. split; [reflexivity|]. simpl.
  split; [apply lookup_insert_eq|].
  unfold readLockfile, tryCatch, andThen, lift, pure, pathExists. rewrite Hjoin. simpl.
  rewrite lookup_insert_eq.
  rewrite bool_decide_eq_true_2 by eauto. simpl.
  unfold readFile. simpl. simpl in Hread. rewrite Hread, lookup_insert_eq.
  destruct (fromToml parseToml toml); reflexivity.
Qed.

(** X9.  readLockfile only reads: the file system is the same
    afterwards, and at most one file, the lockfile, was asked for. *)
Theorem readLockfile_reads_only (dir : string) (w w' : World)
        (r : Result (option Lockfile)) :
  readLockfile fault join parseToml dir w = (w', r) ->
  fs w' = fs w
  /\ (journal w' = journal w
      \/ exists file, join [PStr dir; PStr "vba-block.lock"] = Ok file
                      /\ journal w' = (journal w ++ [ReadFile file])%list).
Proof.
  unfold readLockfile, tryCatch, andThen, lift, pure, pathExists.
  destruct (join [PStr dir; PStr "vba-block.lock"]) as [file|e0];
    [|intros [= <- _]; auto].
  destruct (bool_decide (is_Some (fs w !! file))); simpl; [|intros [= <- _]; auto].
  unfold readFile.
  destruct (fault w (ReadFile file)) as [e1|].
  - intros [= <- _]. simpl. split; [reflexivity|]. right. eauto.
  - destruct (fs w !! file) as [[content|]|].
    + destruct (fromToml parseToml content); intros [= <- _]; simpl;
        (split; [reflexivity|]; right; eauto).
    + intros [= <- _]. simpl. split; [reflexivity|]. right. eauto.
    + intros [= <- _]. simpl. split; [reflexivity|]. right. eauto.
Qed.
End LockfileFile.

(** The sample lockfile written to an empty project and read back. *)
Lemma readLockfile_after_writeLockfile_witness :
  exists w1 w2 lockfile',
    writeLockfile neverFails joinLenient sampleConvert acceptsExact
                  "project" sampleLockfile emptyWorld = (w1, Ok tt)
    /\ readLockfile noFault joinLenient sampleParse "project" w1
       = (w2, Ok (Some lockfile')).
Proof.
  eexists. eexists. eexists. split; [reflexivity|].
  destruct (readLockfile_after_writeLockfile
              neverFails noFault joinLenient sampleParse sampleConvert acceptsExact
              "project" "project/vba-block.lock" sampleLockfile emptyWorld _
              eq_refl eq_refl eq_refl) as [toml [Htoml [_ Hread]]].
  injection Htoml as <-. exact Hread.
Defined.

(** An incomplete graph: the lockfile that is there stays as it is. *)
Lemma writeLockfile_writes_only_complete_text_witness :
  exists w' r,
    writeLockfile neverFails joinLenient sampleConvert acceptsExact
                  "project"
                  {| workspace := workspace sampleLockfile; packages := [] |}
                  corruptWorld
    = (w', r)
    /\ r = Throw noPackageFound
    /\ w' = corruptWorld.
Proof.
  eexists. eexists. split; [reflexivity|].
  destruct (writeLockfile_writes_only_complete_text
              neverFails joinLenient sampleConvert acceptsExact "project"
              {| workspace := workspace sampleLockfile; packages := [] |}
              corruptWorld _ _ eq_refl) as [_ [_ [Hincomplete _]]].
  exact (Hincomplete _ eq_refl eq_refl).
Defined.

(** Reading a corrupt lockfile changes no file. *)
Lemma readLockfile_reads_only_witness :
  exists w' r,
    readLockfile noFault joinLenient sampleParse "project" corruptWorld = (w', r)
    /\ fs w' = fs corruptWorld.
Proof.
  eexists. eexists. split; [reflexivity|].
  exact (proj1 (readLockfile_reads_only noFault joinLenient sampleParse
                                        "project" corruptWorld _ _ eq_refl)).
Defined.

(** ** The runs of fetch *)

Section FetchRuns.
Variable fault : World -> Action -> option Error.
Variable served : string -> string.
Variable getDigest : string -> string.
Variable tmpName : World -> string.
Variable unpack : string -> string -> gmap string Node -> gmap string Node.

Lemma perform_journal (a : Action) (effect : gmap string Node -> gmap string Node)
      (w w1 : World) (r1 : Result unit) :
  perform fault a effect w = (w1, r1) -> journal w1 = (journal w ++ [a])%list.
Proof.
  unfold perform. destruct (fault w a); intros [= <- _]; reflexivity.
Qed.

Lemma extract_journal (file cwd : string) (w w1 : World) (r1 : Result unit) :
  extract fault unpack file cwd w = (w1, r1) ->
  journal w1 = (journal w ++ [Extract file cwd])%list.
Proof.
  unfold extract. destruct (fs w !! file) as [[content|]|].
  - apply perform_journal.
  - intros [= <- _]. reflexivity.
  - intros [= <- _]. reflexivity.
Qed.

Lemma move_journal (src dest : string) (w w1 : World) (r1 : Result unit) :
  move fault src dest w = (w1, r1) ->
  journal w1 = (journal w ++ [Move src dest])%list.
Proof.
  unfold move. destruct (fs w !! src), (fs w !! dest);
    try (intros [= <- _]; reflexivity); apply perform_journal.
Qed.

Lemma tmpFile_journal (w w1 : World) (r1 : Result string) :
  tmpFile fault tmpName w = (w1, r1) ->
  journal w1 = (journal w ++ [TmpFile (tmpName w)])%list.
Proof.
  unfold tmpFile, andThen, pure.
  destruct (perform fault _ _ w) as [w2 [[]|e]] eqn:Hp; intros [= <- _];
    apply (perform_journal _ _ _ _ _ Hp).
Qed.

(** The end of fetch: the source directory is ensured, then the
    archive is extracted. *)
Lemma materialize_run (file src : string) (w w' : World) (r : Result string) :
  (ensureDir fault src ;; extract fault unpack file src ;; pure src) w = (w', r) ->
  (journal w' = (journal w ++ [EnsureDir src])%list /\ exists e, r = Throw e)
  \/ (journal w' = (journal w ++ [EnsureDir src; Extract file src])%list
      /\ (r = Ok src \/ exists e, r = Throw e)).
Proof.
  unfold andThen, pure.
  destruct (ensureDir fault src w) as [w1 [[]|e]] eqn:Hensure.
  - apply perform_journal in Hensure.
    destruct (extract fault unpack file src w1) as [w2 [[]|e]] eqn:Hextract;
      apply extract_journal in Hextract; intros [= <- <-]; right;
      rewrite Hextract, Hensure, <- app_assoc; eauto.
  - apply perform_journal in Hensure. intros [= <- <-]. left. eauto.
Qed.

Lemma fetch_present (config : Config) (registration : Registration) (w : World) :
  is_Some (fs w !! resolveLocalPackage config registration) ->
  fetch fault served getDigest tmpName unpack config registration w
  = (ensureDir fault (resolveSource config registration) ;;
     extract fault unpack (resolveLocalPackage config registration)
             (resolveSource config registration) ;;
     pure (resolveSource config registration)) w.
Proof.
  intros H. unfold fetch. unfold andThen at 1.
  rewrite (pathExists_present _ _ H). reflexivity.
Qed.

(** Every run of fetch, by what it asked of the outside world. *)
Lemma fetch_run (config : Config) (registration : Registration)
      (w w' : World) (r : Result string) :
  fetch fault served getDigest tmpName unpack config registration w = (w', r) ->
  let url := resolveRemotePackage config registration in
  let file := resolveLocalPackage config registration in
  let src := resolveSource config registration in
  let t := tmpName w in
  exists added,
    journal w' = (journal w ++ added)%list
    /\ ((is_Some (fs w !! file)
         /\ (added = [EnsureDir src] \/ added = [EnsureDir src; Extract file src]))
        \/ (fs w !! file = None
            /\ (added = [TmpFile t]
                \/ added = [TmpFile t; Download url t]
                \/ (Some (getDigest (served url))
                    = embeddedChecksum (reg_source registration)
                    /\ exists rest,
                        added = (TmpFile t :: Download url t :: Move t file :: rest)
                        /\ (rest = [] \/ rest = [EnsureDir src]
                            \/ rest = [EnsureDir src; Extract file src]))))).
Proof.
  intros Hrun url file src t.
  destruct (fs w !! file) as [node|] eqn:Hfile.
  - rewrite fetch_present in Hrun by (fold file; rewrite Hfile; eauto).
    fold file src in Hrun.
    apply materialize_run in Hrun as [[Hj _]|[Hj _]]; eexists; (split; [exact Hj|]);
      left; (split; [eauto|]); auto.
  - unfold fetch in Hrun. fold url file src in Hrun.
    unfold andThen at 1 in Hrun. rewrite (pathExists_absent _ _ Hfile) in Hrun.
    simpl negb in Hrun. cbv iota in Hrun.
    unfold andThen at 1 2 in Hrun.
    destruct (tmpFile fault tmpName w) as [w1 [t'|e]] eqn:Htmp.
    2:{ apply tmpFile_journal in Htmp. injection Hrun as <- <-.
        exists [TmpFile t]. split; [exact Htmp|]. right. auto. }
    pose proof (tmpFile_journal _ _ _ Htmp) as Hj1.
    apply tmpFile_Ok in Htmp as [-> [Hfs1 _]]. fold t in Hrun, Hfs1.
    unfold andThen at 1 in Hrun.
    destruct (download fault served url t w1) as [w2 [[]|e]] eqn:Hdownload.
    2:{ apply perform_journal in Hdownload. injection Hrun as <- <-.
        exists [TmpFile t; Download url t]. rewrite Hdownload, Hj1, <- app_assoc.
        split; [reflexivity|]. right. auto. }
    pose proof (perform_journal _ _ _ _ _ Hdownload) as Hj2.
    apply perform_Ok in Hdownload as [_ [Hfs2 _]].
    unfold andThen at 1 in Hrun. unfold getChecksum in Hrun.
    rewrite Hfs2, lookup_insert_eq in Hrun.
    destruct (bool_decide (Some (getDigest (served url))
                           = embeddedChecksum (reg_source registration))) eqn:Hdigest.
    + apply bool_decide_eq_true_1 in Hdigest.
      change (negb true) with false in Hrun. cbv iota in Hrun.
      destruct (move fault t file w2) as [w3 [[]|e]] eqn:Hmove.
      * apply move_journal in Hmove.
        apply materialize_run in Hrun as [[Hj _]|[Hj _]];
          rewrite Hmove, Hj2, Hj1, <- !app_assoc in Hj; simpl in Hj;
          (eexists; split; [exact Hj|]; right; split; [reflexivity|]; right; right;
           split; [exact Hdigest|]; eexists; split; [reflexivity|]; auto).
      * apply move_journal in Hmove. injection Hrun as <- <-.
        eexists. rewrite Hmove, Hj2, Hj1, <- !app_assoc. simpl.
        split; [reflexivity|]. right. split; [reflexivity|]. right. right.
        split; [exact Hdigest|]. exists []. auto.
    + change (negb false) with true in Hrun. cbv iota in Hrun.
      unfold throw in Hrun. injection Hrun as <- <-.
      exists [TmpFile t; Download url t]. rewrite Hj2, Hj1, <- app_assoc.
      split; [reflexivity|]. right. auto.
Qed.

(** X10.  When the archive is already in place fetch asks for no
    temporary file, no download and no move: it ensures the source
    directory and extracts, and the directory it returns is the one of
    the configuration. *)
Theorem fetch_cache_hit (config : Config) (registration : Registration)
        (w w' : World) (r : Result string) :
  is_Some (fs w !! resolveLocalPackage config registration) ->
  fetch fault served getDigest tmpName unpack config registration w = (w', r) ->
  (journal w' = (journal w ++ [EnsureDir (resolveSource config registration)])%list
   \/ journal w'
      = (journal w ++ [EnsureDir (resolveSource config registration);
                       Extract (resolveLocalPackage config registration)
                               (resolveSource config registration)])%list)
  /\ (forall src, r = Ok src -> src = resolveSource config registration).
Proof.
  intros Hpresent Hrun. split.
  - destruct (fetch_run _ _ _ _ _ Hrun) as [added [Hj [[_ Hadded]|[Habsent _]]]].
    + rewrite Hj. destruct Hadded as [->| ->]; auto.
    + rewrite Habsent in Hpresent. destruct Hpresent as [? [=]].
  - rewrite fetch_present in Hrun by exact Hpresent.
    apply materialize_run in Hrun as [[_ [e ->]]|[_ [->|[e ->]]]];
      intros src Heq; congruence.
Qed.

(** X11.  fetch moves a file to the archive path only after
    verification: if a run asked for a move, the archive was absent at
    the start, the move is of the temporary file to the archive path,
    and the digest of what was downloaded is the one written after
    ['#'] in the registration's source. *)
Theorem fetch_moves_only_verified (config : Config) (registration : Registration)
        (w w' : World) (r : Result string) (added : list Action) (src dest : string) :
  fetch fault served getDigest tmpName unpack config registration w = (w', r) ->
  journal w' = (journal w ++ added)%list ->
  Move src dest ∈ added ->
  src = tmpName w
  /\ dest = resolveLocalPackage config registration
  /\ fs w !! resolveLocalPackage config registration = None
  /\ Some (getDigest (served (resolveRemotePackage config registration)))
     = embeddedChecksum (reg_source registration).
Proof.
  intros Hrun Hj Hmove.
  destruct (fetch_run _ _ _ _ _ Hrun) as [added' [Hj' Hcases]].
  rewrite Hj in Hj'. apply app_inv_head in Hj'. subst added'.
  destruct Hcases as [[_ [->| ->]]|[Habsent [->|[->|[Hdigest [rest [-> Hrest]]]]]]];
    try solve [repeat (apply elem_of_cons in Hmove as [Hmove|Hmove]; [discriminate|]);
               inversion Hmove].
  apply elem_of_cons in Hmove as [Hmove|Hmove]; [discriminate|].
  apply elem_of_cons in Hmove as [Hmove|Hmove]; [discriminate|].
  apply elem_of_cons in Hmove as [Hmove|Hmove].
  - injection Hmove as -> ->. auto.
  - exfalso. destruct Hrest as [->|[->| ->]];
      solve [repeat (apply elem_of_cons in Hmove as [Hmove|Hmove]; [discriminate|]);
             inversion Hmove].
Qed.
End FetchRuns.

(** A second fetch of a cached package: no network request. *)
Lemma fetch_cache_hit_witness :
  snd (fetch downloadsFail servedArchive digestBeefdead tmpUnverified unpackNothing
             sampleConfig registrationVerified cachedWorld)
  = Ok "cache/sources/a-1.0.0"
  /\ journal (fst (fetch downloadsFail servedArchive digestBeefdead tmpUnverified
                         unpackNothing sampleConfig registrationVerified cachedWorld))
     = [EnsureDir "cache/sources/a-1.0.0";
        Extract "cache/packages/a-1.0.0.block" "cache/sources/a-1.0.0"].
Proof.
  split; [vm_compute; reflexivity|].
  destruct (fetch_cache_hit downloadsFail servedArchive digestBeefdead tmpUnverified
                            unpackNothing sampleConfig registrationVerified
                            cachedWorld _ _
                            ltac:(eexists; vm_compute; reflexivity)
                            (surjective_pairing _)) as [[Hj|Hj] _].
  - vm_compute in Hj. discriminate Hj.
  - exact Hj.
Defined.

(** A verified download: the one move is of the temporary file to the
    archive path. *)
Lemma fetch_moves_only_verified_witness :
  "tmp/unverified" = tmpUnverified emptyWorld
  /\ "cache/packages/a-1.0.0.block" = resolveLocalPackage sampleConfig registrationVerified
  /\ fs emptyWorld !! resolveLocalPackage sampleConfig registrationVerified = None
  /\ Some (digestBeefdead (servedArchive
                             (resolveRemotePackage sampleConfig registrationVerified)))
     = embeddedChecksum (reg_source registrationVerified).
Proof.
  refine (fetch_moves_only_verified
            noFault servedArchive digestBeefdead tmpUnverified unpackNothing
            sampleConfig registrationVerified emptyWorld _ _
            [TmpFile "tmp/unverified";
             Download "https://packages/a-1.0.0.block" "tmp/unverified";
             Move "tmp/unverified" "cache/packages/a-1.0.0.block";
             EnsureDir "cache/sources/a-1.0.0";
             Extract "cache/packages/a-1.0.0.block" "cache/sources/a-1.0.0"]
            "tmp/unverified" "cache/packages/a-1.0.0.block" eq_refl eq_refl _).
  do 2 (apply elem_of_cons; right). apply elem_of_cons. left. reflexivity.
Defined.

Section FetchOutcomes.
Variable fault : World -> Action -> option Error.
Variable served : string -> string.
Variable getDigest : string -> string.
Variable tmpName : World -> string.
Variable unpack : string -> string -> gmap string Node -> gmap string Node.

(** X12.  When nothing fails, the archive is absent, the temporary
    file is made elsewhere and the digest of what is downloaded is the
    one in the registration's source, fetch returns the source
    directory after five requests (temporary file, download, move,
    ensure, extract), and what was extracted is the downloaded content
    from a file system in which the archive path holds that content. *)
Theorem fetch_verified_download
        (config : Config) (registration : Registration) (w : World) :
  (forall w0 a, fault w0 a = None) ->
  fs w !! resolveLocalPackage config registration = None ->
  tmpName w <> resolveLocalPackage config registration ->
  Some (getDigest (served (resolveRemotePackage config registration)))
  = embeddedChecksum (reg_source registration) ->
  let url := resolveRemotePackage config registration in
  let file := resolveLocalPackage config registration in
  let src := resolveSource config registration in
  exists w' files,
    fetch fault served getDigest tmpName unpack config registration w = (w', Ok src)
    /\ journal w' = (journal w ++ [TmpFile (tmpName w); Download url (tmpName w);
                                    Move (tmpName w) file; EnsureDir src;
                                    Extract file src])%list
    /\ fs w' = unpack (served url) src files
    /\ files !! file = Some (File (served url)).
Proof.
  intros Hnofault Habsent Hdistinct Hdigest url file src.
  change (fs w !! file = None) in Habsent.
  change (tmpName w <> file) in Hdistinct.
  change (Some (getDigest (served url)) = embeddedChecksum (reg_source registration))
    in Hdigest.
  set (t := tmpName w) in *.
  set (w1 := {| fs := <[t := File EmptyString]> (fs w);
                journal := (journal w ++ [TmpFile t])%list |}).
  set (w2 := {| fs := <[t := File (served url)]> (fs w1);
                journal := (journal w1 ++ [Download url t])%list |}).
  set (w3 := {| fs := <[file := File (served url)]> (delete t (fs w2));
                journal := (journal w2 ++ [Move t file])%list |}).
  set (ensured := match fs w3 !! src with
                  | Some _ => fs w3
                  | None => <[src := Directory]> (fs w3)
                  end).
  set (w4 := {| fs := ensured; journal := (journal w3 ++ [EnsureDir src])%list |}).
  set (w5 := {| fs := unpack (served url) src ensured;
                journal := (journal w4 ++ [Extract file src])%list |}).
  assert (Htmp : tmpFile fault tmpName w = (w1, Ok t))
    by (unfold tmpFile, andThen, pure, perform; rewrite Hnofault; reflexivity).
  assert (Hdl : download fault served url t w1 = (w2, Ok tt))
    by (unfold download, perform; rewrite Hnofault; reflexivity).
  assert (Hck : getChecksum getDigest t w2 = (w2, Ok (getDigest (served url))))
    by (unfold getChecksum; unfold w2 at 1; cbn [fs]; rewrite lookup_insert_eq;
        reflexivity).
  assert (Hmv : move fault t file w2 = (w3, Ok tt)).
  { unfold move. unfold w2 at 1 2. cbn [fs]. rewrite lookup_insert_eq.
    rewrite lookup_insert_ne by exact Hdistinct. unfold w1 at 1. cbn [fs].
    rewrite lookup_insert_ne by exact Hdistinct. rewrite Habsent.
    unfold perform. rewrite Hnofault. reflexivity. }
  assert (Hen : ensureDir fault src w3 = (w4, Ok tt))
    by (unfold ensureDir, perform; rewrite Hnofault; reflexivity).
  assert (Hfile : ensured !! file = Some (File (served url))).
  { assert (Hmoved : fs w3 !! file = Some (File (served url)))
      by apply lookup_insert_eq.
    unfold ensured. destruct (fs w3 !! src) eqn:Hsrc; [exact Hmoved|].
    rewrite lookup_insert_ne; [exact Hmoved|]. intros ->. congruence. }
  assert (Hex : extract fault unpack file src w4 = (w5, Ok tt)).
  { unfold extract. unfold w4 at 1. cbn [fs]. rewrite Hfile. unfold perform.
    rewrite Hnofault. reflexivity. }
  exists w5, ensured. split; [|split; [|split; [reflexivity | exact Hfile]]].
  - unfold fetch. fold url file src. unfold andThen.
    rewrite (pathExists_absent file w Habsent). cbv beta iota.
    change (negb false) with true. cbv beta iota.
    rewrite Htmp. cbv beta iota. rewrite Hdl. cbv beta iota.
    rewrite Hck. cbv beta iota.
    rewrite bool_decide_eq_true_2 by exact Hdigest.
    change (negb true) with false. cbv beta iota.
    rewrite Hmv. cbv beta iota. rewrite Hen. cbv beta iota.
    rewrite Hex. reflexivity.
  - simpl. rewrite <- !app_assoc. reflexivity.
Qed.

(** X13.  When the download fails, fetch fails with the error of the
    download as it is; no move is asked for and the archive path is
    still absent. *)
Theorem fetch_download_failure
        (config : Config) (registration : Registration)
        (w w1 : World) (unverifiedFile : string) (e : Error) :
  fs w !! resolveLocalPackage config registration = None ->
  tmpFile fault tmpName w = (w1, Ok unverifiedFile) ->
  unverifiedFile <> resolveLocalPackage config registration ->
  fault w1 (Download (resolveRemotePackage config registration) unverifiedFile) = Some e ->
  exists w',
    fetch fault served getDigest tmpName unpack config registration w = (w', Throw e)
    /\ fs w' !! resolveLocalPackage config registration = None
    /\ journal w'
       = (journal w ++ [TmpFile unverifiedFile;
                        Download (resolveRemotePackage config registration)
                                 unverifiedFile])%list.
Proof.
  intros Habsent Htmp Hdistinct Hfault.
  pose proof (tmpFile_Ok _ _ _ _ _ Htmp) as [_ [Hfs1 Hj1]].
  unfold fetch. unfold andThen at 1. rewrite (pathExists_absent _ _ Habsent).
  change (negb false) with true. cbv iota.
  unfold andThen at 1 2. rewrite Htmp. unfold andThen at 1.
  unfold download, perform. rewrite Hfault.
  eexists. split; [reflexivity|]. simpl. split.
  - rewrite Hfs1. rewrite lookup_insert_ne by exact Hdistinct. exact Habsent.
  - rewrite Hj1, <- app_assoc. reflexivity.
Qed.
End FetchOutcomes.

Lemma fetch_verified_download_witness :
  exists w' files,
    fetch noFault servedArchive digestBeefdead tmpUnverified unpackNothing
          sampleConfig registrationVerified emptyWorld
    = (w', Ok "cache/sources/a-1.0.0")
    /\ journal w' = [TmpFile "tmp/unverified";
                     Download "https://packages/a-1.0.0.block" "tmp/unverified";
                     Move "tmp/unverified" "cache/packages/a-1.0.0.block";
                     EnsureDir "cache/sources/a-1.0.0";
                     Extract "cache/packages/a-1.0.0.block" "cache/sources/a-1.0.0"]
    /\ fs w' = unpackNothing "archive bytes" "cache/sources/a-1.0.0" files
    /\ files !! "cache/packages/a-1.0.0.block" = Some (File "archive bytes").
Proof.
  refine (fetch_verified_download
            noFault servedArchive digestBeefdead tmpUnverified unpackNothing
            sampleConfig registrationVerified emptyWorld _ eq_refl _ eq_refl).
  - intros w0 a. reflexivity.
  - discriminate.
Defined.

Lemma fetch_download_failure_witness :
  exists w',
    fetch downloadsFail servedArchive digestBeefdead tmpUnverified unpackNothing
          sampleConfig registrationVerified emptyWorld
    = (w', Throw (SystemError "ECONNRESET"))
    /\ fs w' !! "cache/packages/a-1.0.0.block" = None.
Proof.
  destruct (fetch_download_failure
              downloadsFail servedArchive digestBeefdead tmpUnverified unpackNothing
              sampleConfig registrationVerified emptyWorld _ "tmp/unverified"
              (SystemError "ECONNRESET") eq_refl eq_refl)
    as [w' [Hrun [Hfs _]]].
  - discriminate.
  - reflexivity.
  - exists w'. split; [exact Hrun | exact Hfs].
Defined.

(** ** More on the index reader *)

(** X14.  An ['error'] of the reader rejects the promise of resolve
    with that error, and the registrations of the lines read before it
    are not returned. *)
Theorem resolve_reader_error_rejects
        (join : list PathPart -> Result string)
        (readLines : string -> list ReaderEvent)
        (JSON_parse : string -> Result IndexRecord)
        (config : Config) (dependency : Dependency)
        (path : string) (lines : list string) (records : list IndexRecord)
        (e : Error) (rest : list ReaderEvent) :
  getPath join config (dep_name dependency) = Ok path ->
  readLines path = (List.map Line lines ++ Failure e :: rest)%list ->
  Forall2 (fun line parsed => JSON_parse line = Ok parsed) lines records ->
  resolve join readLines JSON_parse config dependency = Rejected e.
Proof.
  intros Hpath Hread Hparsed. unfold resolve. rewrite Hpath, Hread.
  rewrite (deliver_parsed_lines JSON_parse lines records _ [] Hparsed). reflexivity.
Qed.

(** The index file becomes unreadable after its first line. *)
Lemma resolve_reader_error_rejects_witness :
  resolve joinLenient
          (fun _ => [Line "{left-pad 1.0.0}"; Failure (SystemError "EIO"); Close])
          sampleJsonParse sampleConfig dependencyLeftPad
  = Rejected (SystemError "EIO").
Proof.
  apply (resolve_reader_error_rejects
           joinLenient
           (fun _ => [Line "{left-pad 1.0.0}"; Failure (SystemError "EIO"); Close])
           sampleJsonParse sampleConfig dependencyLeftPad
           "cache/registry/le/ft/left-pad" ["{left-pad 1.0.0}"]
           [recordLeftPad "1.0.0" "abc123" false] (SystemError "EIO") [Close]).
  - reflexivity.
  - reflexivity.
  - repeat constructor.
Defined.

(** X15.  The checksum fetch verifies for a registration that resolve
    built is the [cksum] of its index record (up to a first ['#'],
    should the record's checksum hold one): the two functions agree on
    where the digest sits in the source string. *)
Theorem fetch_checks_the_index_checksum (parsed : IndexRecord) :
  embeddedChecksum (reg_source (toRegistration parsed))
  = Some (beforeChar hash (rec_cksum parsed))
  /\ (hasChar hash (rec_cksum parsed) = false ->
      embeddedChecksum (reg_source (toRegistration parsed)) = Some (rec_cksum parsed)).
Proof.
  assert (H : embeddedChecksum (reg_source (toRegistration parsed))
              = Some (beforeChar hash (rec_cksum parsed))) by reflexivity.
  split; [exact H|]. intros Hfree. rewrite H, (beforeChar_free _ _ Hfree). reflexivity.
Qed.

(** ** More on the path of an index file *)



(** ** Validity and the order of listing *)

Lemma lastNamed_perm {A} (name : A -> string) (xs ys : list A) (n : string) :
  NoDup (List.map name xs) -> xs ≡ₚ ys ->
  lastNamed name xs n = lastNamed name ys n.
Proof.
  intros Hnd Hperm.
  assert (Hnd' : NoDup (List.map name ys)).
  { assert (Hm : List.map name xs ≡ₚ List.map name ys)
      by (apply Permutation_map; exact Hperm).
    rewrite <- Hm. exact Hnd. }
  destruct (lastNamed name xs n) as [x|] eqn:Hx.
  - apply lastNamed_Some in Hx as [Hin <-]. symmetry.
    apply lastNamed_unique; [exact Hnd'|]. rewrite <- Hperm. exact Hin.
  - destruct (lastNamed name ys n) as [y|] eqn:Hy; [|reflexivity].
    apply lastNamed_Some in Hy as [Hin <-].
    rewrite lastNamed_unique in Hx; [discriminate | exact Hnd|].
    rewrite Hperm. exact Hin.
Qed.

Lemma indexByName_perm {A} (name : A -> string) (xs ys : list A) :
  NoDup (List.map name xs) -> xs ≡ₚ ys -> indexByName name xs = indexByName name ys.
Proof.
  intros Hnd Hperm. apply map_eq. intros n.
  rewrite !indexByName_lookup. apply lastNamed_perm; assumption.
Qed.

Section ValidityOrder.
Variable satisfies : Dependency -> Dependency -> bool.

Lemma compareLocked_perm (byName : gmap string Dependency) (locked locked' : list Dependency) :
  locked ≡ₚ locked' ->
  compareLocked satisfies byName locked = compareLocked satisfies byName locked'.
Proof.
  intros Hperm. apply Bool.eq_iff_eq_true. rewrite !compareLocked_true.
  split; intros H d Hd; apply H; [rewrite Hperm | rewrite <- Hperm]; exact Hd.
Qed.

Lemma compareMembers_perm (byName : gmap string Snapshot) (members members' : list Snapshot) :
  members ≡ₚ members' ->
  compareMembers satisfies byName members = compareMembers satisfies byName members'.
Proof.
  intros Hperm. apply Bool.eq_iff_eq_true. rewrite !compareMembers_true.
  split; intros H m Hm; apply H; [rewrite Hperm | rewrite <- Hperm]; exact Hm.
Qed.

Lemma compareDependencies_perm (current current' locked locked' : Snapshot) :
  NoDup (List.map dep_name (snap_dependencies current)) ->
  snap_dependencies current ≡ₚ snap_dependencies current' ->
  snap_dependencies locked ≡ₚ snap_dependencies locked' ->
  compareDependencies satisfies current locked
  = compareDependencies satisfies current' locked'.
Proof.
  intros Hnd Hc Hl. unfold compareDependencies.
  rewrite <- (Permutation_length Hc), <- (Permutation_length Hl).
  rewrite <- (indexByName_perm dep_name _ _ Hnd Hc).
  rewrite (compareLocked_perm _ _ _ Hl). reflexivity.
Qed.

(** X17.  With distinct member names in the workspace, and member
    and dependency names of the members that are no property names
    inherited from [Object.prototype], the order in which the workspace
    and the lockfile list their members does not matter to
    isLockfileValid. *)
Theorem isLockfileValid_member_order
        (lockfile lockfile' : Lockfile) (current current' : Workspace) :
  NoDup (List.map snap_name (ws_members current)) ->
  forallb plainNames (ws_members current) = true ->
  forallb plainNames (ws_members (workspace lockfile)) = true ->
  ws_root current = ws_root current' ->
  ws_members current ≡ₚ ws_members current' ->
  ws_root (workspace lockfile) = ws_root (workspace lockfile') ->
  ws_members (workspace lockfile) ≡ₚ ws_members (workspace lockfile') ->
  isLockfileValid satisfies lockfile current
  = isLockfileValid satisfies lockfile' current'.
Proof.
  intros Hnd _ _ Hwr Hwm Hlr Hlm. unfold isLockfileValid.
  rewrite <- Hwr, <- Hlr.
  rewrite <- (Permutation_length Hwm), <- (Permutation_length Hlm).
  rewrite <- (indexByName_perm snap_name _ _ Hnd Hwm).
  rewrite (compareMembers_perm _ _ _ Hlm). reflexivity.
Qed.

(** X18.  With distinct dependency names in the current root, the
    order in which the current root and the locked root list their
    dependencies does not matter to isLockfileValid. *)
Theorem isLockfileValid_dependency_order
        (lockfile lockfile' : Lockfile) (current current' : Workspace) :
  NoDup (List.map dep_name (snap_dependencies (ws_root current))) ->
  snap_dependencies (ws_root current) ≡ₚ snap_dependencies (ws_root current') ->
  snap_dependencies (ws_root (workspace lockfile))
  ≡ₚ snap_dependencies (ws_root (workspace lockfile')) ->
  ws_members current = ws_members current' ->
  ws_members (workspace lockfile) = ws_members (workspace lockfile') ->
  isLockfileValid satisfies lockfile current
  = isLockfileValid satisfies lockfile' current'.
Proof.
  intros Hnd Hc Hl Hwm Hlm. unfold isLockfileValid.
  rewrite (compareDependencies_perm _ _ _ _ Hnd Hc Hl), Hwm, Hlm. reflexivity.
Qed.
End ValidityOrder.

Lemma isLockfileValid_member_order_witness :
  isLockfileValid exactVersion (lockfileOf workspaceTwo) workspaceTwoMembersSwapped = true
  /\ isLockfileValid exactVersion (lockfileOf workspaceTwo) workspaceTwoMembersSwapped
     = isLockfileValid exactVersion (lockfileOf workspaceTwoMembersSwapped) workspaceTwo.
Proof.
  split; [vm_compute; reflexivity|].
  apply (isLockfileValid_member_order exactVersion).
  - compute_done.
  - reflexivity.
  - reflexivity.
  - reflexivity.
  - apply perm_swap.
  - reflexivity.
  - apply perm_swap.
Defined.

Lemma isLockfileValid_dependency_order_witness :
  isLockfileValid exactVersion (lockfileOf workspaceTwo) workspaceTwoRootSwapped = true
  /\ isLockfileValid exactVersion (lockfileOf workspaceTwo) workspaceTwoRootSwapped
     = isLockfileValid exactVersion (lockfileOf workspaceTwoRootSwapped) workspaceTwo.
Proof.
  split; [vm_compute; reflexivity|].
  apply (isLockfileValid_dependency_order exactVersion).
  - compute_done.
  - apply perm_swap.
  - apply perm_swap.
  - reflexivity.
  - reflexivity.
Defined.

(** ** Targets of a manifest *)

Section TargetFacts.
Variable unixJoin : string -> string -> string.
Variable sanitize : string -> string.

Lemma parseTarget_valid (value : TargetValue) (pkgName dir : string) :
  (validTarget value = true ->
   exists target, parseTarget unixJoin sanitize value pkgName dir = Ok target)
  /\ (validTarget value = false ->
      exists e, parseTarget unixJoin sanitize value pkgName dir = Throw e).
Proof.
  unfold validTarget, parseTarget.
  destruct (truthy (tv_type value)); [destruct (truthy (tv_path value))|];
    split; try discriminate; eauto.
Qed.

Lemma parseTarget_Ok (value : TargetValue) (pkgName dir : string) (target : Target) :
  parseTarget unixJoin sanitize value pkgName dir = Ok target ->
  target_name target = match tv_name value with
                       | Some own => own
                       | None => pkgName
                       end
  /\ tv_type value = Some (target_type target)
  /\ nonEmpty (target_type target) = true
  /\ (exists relativePath,
         tv_path value = Some relativePath
         /\ nonEmpty relativePath = true
         /\ target_path target = unixJoin dir relativePath)
  /\ target_filename target
     = sanitize (target_name target) +:+ "." +:+ target_type target.
Proof.
  unfold parseTarget.
  destruct (truthy (tv_type value)) as [type|] eqn:Htype; [|discriminate].
  destruct (truthy (tv_path value)) as [relativePath|] eqn:Hpath; [|discriminate].
  intros [= <-]. simpl.
  apply truthy_Some in Htype as [Htype Htype'], Hpath as [Hpath Hpath'].
  repeat split; try assumption. exists relativePath. auto.
Qed.

(** X19.  parseTargets returns targets exactly when every table has a
    non-empty type and a non-empty path, and then one target per table
    in order: named by the table or else by the package, with the path
    joined to the directory and the file name made of the sanitized
    name and the type.  The type is not checked against xlsx, xlsm and
    xlam. *)
Theorem parseTargets_succeeds_iff_valid
        (values : list TargetValue) (pkgName dir : string) :
  (forallb validTarget values = true <->
   exists targets, parseTargets unixJoin sanitize (Some values) pkgName dir = Ok targets)
  /\ (forall targets,
         parseTargets unixJoin sanitize (Some values) pkgName dir = Ok targets ->
         Forall2 (fun value target =>
                    target_name target = match tv_name value with
                                         | Some own => own
                                         | None => pkgName
                                         end
                    /\ tv_type value = Some (target_type target)
                    /\ (exists relativePath,
                           tv_path value = Some relativePath
                           /\ target_path target = unixJoin dir relativePath)
                    /\ target_filename target
                       = sanitize (target_name target) +:+ "." +:+ target_type target)
                 values targets).
Proof.
  unfold parseTargets. split.
  - induction values as [|v rest IH]; simpl.
    + split; eauto.
    + destruct (parseTarget_valid v pkgName dir) as [Hgood Hbad].
      destruct (validTarget v); simpl.
      * destruct (Hgood eq_refl) as [target ->]. simpl. rewrite IH. split.
        -- intros [targets ->]. simpl. eauto.
        -- intros [targets H].
           destruct (mapR _ rest) as [ts|]; simpl in H; [eauto | discriminate].
      * destruct (Hbad eq_refl) as [e ->]. simpl.
        split; [discriminate | intros [? [=]]].
  - intros targets H. apply mapR_Ok in H.
    eapply Forall2_impl; [exact H|]. intros v t Hvt.
    apply parseTarget_Ok in Hvt as [Hn [Ht [_ [[p [Hp [_ Hpath]]] Hf]]]].
    repeat split; try assumption. exists p. auto.
Qed.

(** X20.  parseTargets stops at the first table that lacks a type or a
    path: its exception is that of this table, whatever the tables
    after it hold, and the missing type is reported before the missing
    path. *)
Theorem parseTargets_first_invalid
        (good : list TargetValue) (bad : TargetValue) (rest : list TargetValue)
        (pkgName dir : string) :
  forallb validTarget good = true ->
  validTarget bad = false ->
  exists e,
    parseTarget unixJoin sanitize bad pkgName dir = Throw e
    /\ parseTargets unixJoin sanitize (Some (good ++ bad :: rest)%list) pkgName dir
       = Throw e
    /\ (truthy (tv_type bad) = None ->
        e = AssertionError
              ("target " +:+ dquote
               +:+ match tv_name bad with Some own => own | None => pkgName end
               +:+ dquote +:+ " is missing type. " +:+ EXAMPLE)).
Proof.
  intros Hgood Hbad.
  destruct (proj2 (parseTarget_valid bad pkgName dir) Hbad) as [e He].
  exists e. split; [exact He|]. split.
  - unfold parseTargets. induction good as [|v good' IH]; simpl.
    + rewrite He. reflexivity.
    + simpl in Hgood. apply andb_true_iff in Hgood as [Hv Hgood'].
      destruct (proj1 (parseTarget_valid v pkgName dir) Hv) as [target ->]. simpl.
      rewrite (IH Hgood'). reflexivity.
  - intros Htype. unfold parseTarget in He. rewrite Htype in He.
    injection He as <-. reflexivity.
Qed.

(** X21.  parseTarget takes the name of a table that has none from the
    package, so two unnamed tables of the same type get the same name
    and the same file name. *)
Theorem parseTarget_unnamed_share_filename
        (value value' : TargetValue) (pkgName dir : string) (target target' : Target) :
  tv_name value = None ->
  tv_name value' = None ->
  tv_type value = tv_type value' ->
  parseTarget unixJoin sanitize value pkgName dir = Ok target ->
  parseTarget unixJoin sanitize value' pkgName dir = Ok target' ->
  target_name target = pkgName
  /\ target_name target' = pkgName
  /\ target_filename target = target_filename target'.
Proof.
  intros Hn Hn' Htype H H'.
  apply parseTarget_Ok in H as [Hname [Ht [_ [_ Hf]]]].
  apply parseTarget_Ok in H' as [Hname' [Ht' [_ [_ Hf']]]].
  rewrite Hn in Hname. rewrite Hn' in Hname'.
  assert (Hsame : target_type target = target_type target') by congruence.
  rewrite Hf, Hf', Hname, Hname', Hsame. auto.
Qed.
End TargetFacts.

Lemma parseTargets_first_invalid_witness :
  exists e,
    parseTarget unixJoinSlash sanitizeNothing targetNoPath "app" "project" = Throw e
    /\ parseTargets unixJoinSlash sanitizeNothing
                    (Some [targetAddin; targetNoPath; targetXlsm]) "app" "project"
       = Throw e.
Proof.
  destruct (parseTargets_first_invalid unixJoinSlash sanitizeNothing
              [targetAddin] targetNoPath [targetXlsm] "app" "project" eq_refl eq_refl)
    as [e [He [Hall _]]].
  exists e. split; [exact He | exact Hall].
Defined.

Lemma parseTarget_unnamed_share_filename_witness :
  exists target target',
    parseTarget unixJoinSlash sanitizeNothing targetXlsm "app" "project" = Ok target
    /\ parseTarget unixJoinSlash sanitizeNothing
                   {| tv_name := None; tv_type := Some "xlsm"; tv_path := Some "other" |}
                   "app" "project" = Ok target'
    /\ target_filename target = "app.xlsm"
    /\ target_filename target = target_filename target'.
Proof.
  eexists. eexists. split; [reflexivity|]. split; [reflexivity|].
  split; [reflexivity|].
  exact (proj2 (proj2 (parseTarget_unnamed_share_filename
                         unixJoinSlash sanitizeNothing targetXlsm
                         {| tv_name := None; tv_type := Some "xlsm";
                            tv_path := Some "other" |}
                         "app" "project" _ _ eq_refl eq_refl eq_refl eq_refl eq_refl))).
Defined.
